(** * Image selection controller (lib/gui/pages/main/controllers/image-selection.js)

    A shallow embedding of the controller that keeps the MCU firmware image
    in sync with the newest published release and guards the selection of
    an image to flash.

    JavaScript strings are modelled by [string]; every string the controller
    inspects character by character (the firmware file names kept by the
    filter) is ASCII, where byte order and UTF-16 code unit order agree. *)

From Stdlib Require Import String Ascii List Bool Arith NArith ZArith Lia.
From Stdlib Require Import Sorting.Sorted Sorting.Permutation.
Import ListNotations.

Local Open Scope string_scope.
Local Open Scope list_scope.

(** ** JavaScript values held by the controller *)

Module JS.

(** The values that reach the controller's fields and the image flags. *)
Inductive value : Type :=
| JUndefined
| JNull
| JBool (b : bool)
| JStr (s : string).

(** ToBoolean, as used by [if (x)], [x && y] and [Boolean(x)]. *)
Definition truthy (v : value) : bool :=
  match v with
  | JUndefined | JNull => false
  | JBool b => b
  | JStr s => negb (s =? "")
  end.

(** ToString, as used by [+] with a string operand. *)
Definition to_string (v : value) : string :=
  match v with
  | JUndefined => "undefined"
  | JNull => "null"
  | JBool true => "true"
  | JBool false => "false"
  | JStr s => s
  end.

(** [Boolean(x)] *)
Definition Boolean (v : value) : value := JBool (truthy v).

(** [x == null] *)
Definition is_nullish (v : value) : bool :=
  match v with
  | JUndefined | JNull => true
  | _ => false
  end.

(** The outcome of a call that may throw. *)
Inductive completion (A : Type) : Type :=
| Normal (a : A)
| Throw (what : string).
Arguments Normal {A} a.
Arguments Throw {A} what.

End JS.
Import JS.

(** ** Strings: replace, default sort *)

Module Str.

(** [s.slice(n)] for [n] within the string. *)
Fixpoint drop (n : nat) (s : string) : string :=
  match n, s with
  | O, _ => s
  | S n', String _ s' => drop n' s'
  | S _, EmptyString => EmptyString
  end.

(** [s.replace(pat, rep)] with a string pattern: the first occurrence of
    [pat] is replaced.  Both calls in the controller pass the empty
    replacement, which holds no [$] pattern. *)
Fixpoint replace (pat rep s : string) : string :=
  if String.prefix pat s then rep ++ drop (String.length pat) s
  else match s with
       | EmptyString => EmptyString
       | String c s' => String c (replace pat rep s')
       end.

(** Insertion into an ascending list. *)
Fixpoint insert (x : string) (l : list string) : list string :=
  match l with
  | [] => [x]
  | y :: l' => if String.leb x y then x :: l else y :: insert x l'
  end.

(** [arr.sort()] with no comparator on an array of strings: ascending in
    code unit order.  That order is total and antisymmetric, so the result
    is the one ascending permutation, whichever algorithm the engine runs. *)
Fixpoint sort (l : list string) : list string :=
  match l with
  | [] => []
  | x :: l' => insert x (sort l')
  end.

End Str.

(** ** Regular expressions *)

Module Regex.

Definition is_digit (c : ascii) : bool :=
  (48 <=? nat_of_ascii c)%nat && (nat_of_ascii c <=? 57)%nat.

(** The fragment of the pattern language used by the controller, closed
    under derivatives. *)
Inductive regex : Type :=
| RFail
| REmpty
| RChar (c : ascii)
| RDigit
| RSeq (r1 r2 : regex)
| RAlt (r1 r2 : regex)
| RStar (r : regex).

(** [r+] *)
Definition RPlus (r : regex) : regex := RSeq r (RStar r).

(** A run of literal characters. *)
Fixpoint RLit (s : string) : regex :=
  match s with
  | EmptyString => REmpty
  | String c s' => RSeq (RChar c) (RLit s')
  end.

(** The language of a pattern. *)
Inductive Matches : regex -> string -> Prop :=
| MEmpty : Matches REmpty ""
| MChar c : Matches (RChar c) (String c "")
| MDigit c : is_digit c = true -> Matches RDigit (String c "")
| MSeq r1 r2 s1 s2 :
    Matches r1 s1 -> Matches r2 s2 -> Matches (RSeq r1 r2) (s1 ++ s2)
| MAltL r1 r2 s : Matches r1 s -> Matches (RAlt r1 r2) s
| MAltR r1 r2 s : Matches r2 s -> Matches (RAlt r1 r2) s
| MStarNil r : Matches (RStar r) ""
| MStarApp r s1 s2 :
    Matches r s1 -> Matches (RStar r) s2 -> Matches (RStar r) (s1 ++ s2).

Fixpoint nullable (r : regex) : bool :=
  match r with
  | RFail => false
  | REmpty => true
  | RChar _ => false
  | RDigit => false
  | RSeq r1 r2 => nullable r1 && nullable r2
  | RAlt r1 r2 => nullable r1 || nullable r2
  | RStar _ => true
  end.

Fixpoint deriv (c : ascii) (r : regex) : regex :=
  match r with
  | RFail => RFail
  | REmpty => RFail
  | RChar d => if Ascii.eqb c d then REmpty else RFail
  | RDigit => if is_digit c then REmpty else RFail
  | RSeq r1 r2 =>
      if nullable r1 then RAlt (RSeq (deriv c r1) r2) (deriv c r2)
      else RSeq (deriv c r1) r2
  | RAlt r1 r2 => RAlt (deriv c r1) (deriv c r2)
  | RStar r1 => RSeq (deriv c r1) (RStar r1)
  end.

(** Does the whole of [s] belong to the language of [r]?  This is
    [/^r$/.test(s)]: without the [m] flag the two anchors stand for the
    start and the end of the input. *)
Fixpoint test_anchored (r : regex) (s : string) : bool :=
  match s with
  | EmptyString => nullable r
  | String c s' => test_anchored (deriv c r) s'
  end.

End Regex.
Import Regex.

(** [/^mcu_v\d+\.\d+\.\d+\.img\.zip$/] without its anchors. *)
Definition mcu_image_pattern : regex :=
  RSeq (RLit "mcu_v")
    (RSeq (RPlus RDigit)
       (RSeq (RChar ".")
          (RSeq (RPlus RDigit)
             (RSeq (RChar ".")
                (RSeq (RPlus RDigit) (RLit ".img.zip")))))).

(** [file.match(/^mcu_v\d+\.\d+\.\d+\.img\.zip$/)] as a condition. *)
Definition is_mcu_image (file : string) : bool :=
  test_anchored mcu_image_pattern file.

(** [dirs.filter(file => file.match(...)).sort().reverse()] *)
Definition mcuImages (dirs : list string) : list string :=
  rev (Str.sort (filter is_mcu_image dirs)).

(** [mcuImages[0].replace('mcu_', '').replace('.img.zip', '')] *)
Definition latestDownload (file : string) : string :=
  Str.replace ".img.zip" "" (Str.replace "mcu_" "" file).

(** ** Firmware file names, as the specification words them *)

(** A string of decimal digits, possibly empty. *)
Fixpoint all_digits (s : string) : bool :=
  match s with
  | EmptyString => true
  | String c s' => is_digit c && all_digits s'
  end.

(** A numeric component: one decimal digit or more. *)
Definition numeric (s : string) : Prop := all_digits s = true /\ s <> "".

(** [<major>.<minor>.<patch>] *)
Definition dotted (major minor patch : string) : string :=
  major ++ "." ++ minor ++ "." ++ patch.

(** [mcu_v<major>.<minor>.<patch>.img.zip] *)
Definition firmware_name (major minor patch : string) : string :=
  "mcu_v" ++ dotted major minor patch ++ ".img.zip".

(** The file names of the naming convention. *)
Definition is_firmware_name (file : string) : Prop :=
  exists major minor patch,
    numeric major /\ numeric minor /\ numeric patch /\
    file = firmware_name major minor patch.

(** ** Data of the controller and of its collaborators *)

(** An image as produced by the metadata extraction. *)
Record image : Type := mkImage {
  path : string;
  hasMBR : bool;
  logo : value;
  bmap : value
}.

(** One entry of [json.assets]. *)
Record asset : Type := mkAsset {
  browser_download_url : value
}.

(** The body of the reply of the latest-release endpoint, once parsed.
    [assets = None] stands for a reply with no [assets] field. *)
Record release : Type := mkRelease {
  tag_name : value;
  assets : option (list asset)
}.

(** The argument of the ['download-mcu'] message sent back by the main
    process. *)
Record download_reply : Type := mkReply {
  error : value;
  imagePath : string
}.

(** [this.downloading], [this.availableVersion], [this.currentVersion] *)
Record controller : Type := mkController {
  downloading : bool;
  availableVersion : value;
  currentVersion : value
}.

(** The data logged with an analytics event. *)
Inductive payload : Type :=
| OfImage (img : image)
| PreviousImage (img : option image).

(** Calls into the collaborators, in the order they are made. *)
Inductive effect : Type :=
| IpcSend (channel : string) (arg : value)
| SelectImageByPath (imagePath : string)
| ConsoleError (label : string)
| ShowError (title description : string)
| LogEvent (name : string) (data : payload)
| Display (confirmationLabel rejectionLabel description : string)
| SetImage (img : image)
| Report (what : string).

(** Modelled from the spec: the selection-state store, of which the
    repository's sources here hold only the calls.  [setImage] replaces the
    stored image by the value it is given, [getImage] reads it back. *)
Record world : Type := mkWorld {
  ctrl : controller;
  selection : option image;
  log : list effect
}.

Definition set_ctrl (c : controller) (w : world) : world :=
  mkWorld c (selection w) (log w).

Definition set_selection (s : option image) (w : world) : world :=
  mkWorld (ctrl w) s (log w).

Definition set_downloading (b : bool) (c : controller) : controller :=
  mkController b (availableVersion c) (currentVersion c).

Definition set_availableVersion (v : value) (c : controller) : controller :=
  mkController (downloading c) v (currentVersion c).

Definition set_currentVersion (v : value) (c : controller) : controller :=
  mkController (downloading c) (availableVersion c) v.

(** ** Statements that may throw, run on the world *)

Definition M (A : Type) : Type := world -> completion A * world.

Definition ret {A} (a : A) : M A := fun w => (Normal a, w).

Definition bind {A B} (m : M A) (k : A -> M B) : M B :=
  fun w =>
    match m w with
    | (Normal a, w') => k a w'
    | (Throw e, w') => (Throw e, w')
    end.

Definition throw {A} (what : string) : M A := fun w => (Throw what, w).

(** [try { m } catch (ex) { h ex }]: what [m] did before it threw stays
    done. *)
Definition try_catch {A} (m : M A) (h : string -> M A) : M A :=
  fun w =>
    match m w with
    | (Normal a, w') => (Normal a, w')
    | (Throw e, w') => h e w'
    end.

Definition emit (e : effect) : M unit :=
  fun w => (Normal tt, mkWorld (ctrl w) (selection w) (log w ++ [e])).

Definition get_ctrl : M controller := fun w => (Normal (ctrl w), w).

Definition modify_ctrl (f : controller -> controller) : M unit :=
  fun w => (Normal tt, set_ctrl (f (ctrl w)) w).

Definition lift {A} (c : completion A) : M A := fun w => (c, w).

Definition exec {A} (m : M A) (w : world) : world := snd (m w).

Declare Scope js_scope.
Delimit Scope js_scope with js.
Notation "x <- m ;; k" := (bind m (fun x => k))
  (at level 61, m at next level, right associativity) : js_scope.
Notation "m ;; k" := (bind m (fun _ => k))
  (at level 61, right associativity) : js_scope.
Local Open Scope js_scope.

(** The download requests among a list of effects. *)
Definition is_download_request (e : effect) : bool :=
  match e with
  | IpcSend channel _ => channel =? "download-mcu"
  | _ => false
  end.

Definition download_requests (l : list effect) : list effect :=
  filter is_download_request l.

(** The confirmation messages shown among a list of effects. *)
Definition is_display (e : effect) : bool :=
  match e with
  | Display _ _ _ => true
  | _ => false
  end.

Definition displayed (l : list effect) : list effect := filter is_display l.

(** The paths handed to [selectImageByPath] among a list of effects. *)
Definition selected_paths (l : list effect) : list string :=
  flat_map (fun e => match e with
                     | SelectImageByPath p => [p]
                     | _ => []
                     end) l.

Definition is_setImage (e : effect) : bool :=
  match e with
  | SetImage _ => true
  | _ => false
  end.

(** ** The controller *)

Section Controller.

(** [semver.compare] of the npm package [semver]: -1, 0 or 1, or a
    [TypeError] for an operand that is no version. *)
Variable semver_compare : value -> value -> completion Z.

(** [remote.app.getPath('downloads')] and Node's [path.join]. *)
Variable downloads : string.
Variable path_join : string -> string -> string.

(** [this.isDownloading] *)
Definition isDownloading (c : controller) : bool := downloading c.

(** [this.updateAvailable] *)
Definition updateAvailable (c : controller) : completion bool :=
  if truthy (availableVersion c) && truthy (currentVersion c) then
    match semver_compare (availableVersion c) (currentVersion c) with
    | Normal z => Normal (0 <? z)%Z
    | Throw e => Throw e
    end
  else Normal false.

(** [this.downloadPrompt] *)
Definition downloadPrompt (c : controller) : string :=
  if downloading c then "Downloading..."
  else "Download " ++ to_string (availableVersion c).

(** [json != null && json.assets && json.assets.length > 0] *)
Definition has_assets (json : option release) : bool :=
  match json with
  | Some r =>
      match assets r with
      | Some (_ :: _) => true
      | _ => false
      end
  | None => false
  end.

(** [json.assets[0].browser_download_url], which throws a [TypeError] when
    [json] is null, when it has no [assets], and when [assets] is empty. *)
Definition first_asset_url (json : option release) : completion value :=
  match json with
  | None => Throw "TypeError: Cannot read property 'assets' of null"
  | Some r =>
      match assets r with
      | None => Throw "TypeError: Cannot read property '0' of undefined"
      | Some [] =>
          Throw "TypeError: Cannot read property 'browser_download_url' of undefined"
      | Some (a :: _) => Normal (browser_download_url a)
      end
  end.

(** The body of the [try] block of [checkForNewImage].  [dirs] is what
    [fs.readdirSync] does on the downloads directory: a listing or an
    exception. *)
Definition scan_downloads (allowDownload : bool) (json : option release)
    (dirs : completion (list string)) : M unit :=
  dirs <- lift dirs ;;
  let mcuImages := mcuImages dirs in
  newImageAvailable <-
    match mcuImages with
    | newest :: _ =>
        modify_ctrl (set_currentVersion (JStr (latestDownload newest))) ;;
        c <- get_ctrl ;;
        lift (updateAvailable c)
    | [] => ret true
    end ;;
  match mcuImages with
  | newest :: _ => emit (SelectImageByPath (path_join downloads newest))
  | [] => ret tt
  end ;;
  if newImageAvailable && allowDownload then
    modify_ctrl (set_downloading true) ;;
    url <- lift (first_asset_url json) ;;
    emit (IpcSend "download-mcu" url)
  else ret tt.

(** The callback [json => { ... }] that [checkForNewImage(allowDownload)]
    chains on the request: [json] is the parsed reply, or [None] for the
    [null] that the first [catch] turns a failed request or a reply that
    does not parse into. *)
Definition checkForNewImage (allowDownload : bool) (json : option release)
    (dirs : completion (list string)) : M unit :=
  (if has_assets json then
     match json with
     | Some r => modify_ctrl (set_availableVersion (tag_name r))
     | None => ret tt
     end
   else ret tt) ;;
  try_catch (scan_downloads allowDownload json dirs)
    (fun _ => emit (ConsoleError "Select image error")).

(** The listener of ['download-mcu'] installed by [init].  The check it
    starts settles later, as a [checkForNewImage false] of its own. *)
Definition on_download_mcu (arg : download_reply) : M unit :=
  modify_ctrl (set_downloading false) ;;
  if is_nullish (error arg) then emit (SelectImageByPath (imagePath arg))
  else ret tt.

End Controller.

(** ** Selecting an image *)

Section Selection.

(** [supportedFormats.isSupportedImage], [supportedFormats.looksLikeWindowsImage] *)
Variable isSupportedImage : string -> bool.
Variable looksLikeWindowsImage : string -> bool.

(** [messages.error.invalidImage({ image })],
    [messages.warning.looksLikeWindowsImage()],
    [messages.warning.missingPartitionTable()] *)
Variable invalidImage_message : image -> string.
Variable looksLikeWindowsImage_message : string.
Variable missingPartitionTable_message : string.

(** [this.reselectImage]: the event is logged with the stored image, and
    the call of [this.openImageSelector], a method this controller does not
    define (its definition is commented out), throws. *)
Definition reselectImage : M unit :=
  (fun w => emit (LogEvent "Reselect image" (PreviousImage (selection w))) w) ;;
  throw "TypeError: this.openImageSelector is not a function".

(** The function given to [Bluebird.try]: the warning is chosen, and shown
    when there is one.  [answer] is what the promise of
    [WarningModalService.display] settles to. *)
Definition confirm (image : image) (answer : completion bool) : M bool :=
  message <-
    (if looksLikeWindowsImage (path image) then
       emit (LogEvent "Possibly Windows image" (OfImage image)) ;;
       ret (JStr looksLikeWindowsImage_message)
     else if negb (hasMBR image) then
       emit (LogEvent "Missing partition table" (OfImage image)) ;;
       ret (JStr missingPartitionTable_message)
     else ret JNull) ;;
  if truthy message then
    emit (Display "Change" "Continue" (to_string message)) ;;
    lift answer
  else ret false.

(** The function given to [then]. *)
Definition commit (image : image) (shouldChange : bool) : M unit :=
  if shouldChange then reselectImage
  else
    emit (SetImage image) ;;
    (fun w => (Normal tt, set_selection (Some image) w)) ;;
    emit (LogEvent "Select image"
            (OfImage (mkImage (path image) (hasMBR image)
                        (Boolean (logo image)) (Boolean (bmap image))))).

(** [this.selectImage] *)
Definition selectImage (image : image) (answer : completion bool) : M unit :=
  if negb (isSupportedImage (path image)) then
    emit (ShowError "Invalid image" (invalidImage_message image)) ;;
    emit (LogEvent "Invalid image" (OfImage image))
  else
    try_catch (shouldChange <- confirm image answer ;; commit image shouldChange)
      (fun e => emit (Report e)).

End Selection.

(** ** The published extension lists *)

Module Lodash.

Definition includes (x : string) (l : list string) : bool :=
  existsb (String.eqb x) l.

(** [_.intersection(a, b)]: the values of [a] found in [b], each once, in
    the order of [a].  [seen] is the result built so far. *)
Fixpoint intersection_from (seen a b : list string) : list string :=
  match a with
  | [] => []
  | x :: a' =>
      if negb (includes x seen) && includes x b
      then x :: intersection_from (seen ++ [x]) a' b
      else intersection_from seen a' b
  end.

Definition intersection (a b : list string) : list string :=
  intersection_from [] a b.

(** [_.difference(a, b)]: the values of [a] not found in [b], in order. *)
Definition difference (a b : list string) : list string :=
  filter (fun x => negb (includes x b)) a.

End Lodash.

Section Extensions.

(** [supportedFormats.getAllExtensions()] *)
Variable getAllExtensions : list string.

(** [this.mainSupportedExtensions] *)
Definition mainSupportedExtensions : list string :=
  Lodash.intersection ["img"; "iso"; "zip"] getAllExtensions.

(** [this.extraSupportedExtensions] *)
Definition extraSupportedExtensions : list string :=
  Str.sort (Lodash.difference getAllExtensions mainSupportedExtensions).

End Extensions.

(** ** The life of the controller *)

(** What happens to the controller after it is built: a callback of
    [checkForNewImage(allowDownload)] runs on the reply [json] and the
    listing [dirs], or the main process reports on a download. *)
Inductive event : Type :=
| Checked (allowDownload : bool) (json : option release)
    (dirs : completion (list string))
| Downloaded (arg : download_reply).

(** The controller as its constructor leaves it. *)
Definition initial : world :=
  mkWorld (mkController false JNull JNull) None [].

Section Run.

Variable semver_compare : value -> value -> completion Z.
Variable downloads : string.
Variable path_join : string -> string -> string.

Definition step (e : event) : M unit :=
  match e with
  | Checked allowDownload json dirs =>
      checkForNewImage semver_compare downloads path_join allowDownload json dirs
  | Downloaded arg => on_download_mcu arg
  end.

Fixpoint run (events : list event) (w : world) : world :=
  match events with
  | [] => w
  | e :: events' => run events' (exec (step e) w)
  end.

End Run.

(** ** A reading of [semver.compare] for concrete runs

    The package [semver] is a dependency of the repository.  The runs below
    need its [compare] on plain versions only: an optional [v], then three
    dot-separated numeric identifiers without leading zeros.  Every other
    operand is taken as no version. *)

Module Semver.

Definition digit_value (c : ascii) : N := N_of_ascii c - 48.

Fixpoint number_from (acc : N) (s : string) : option N :=
  match s with
  | EmptyString => Some acc
  | String c s' =>
      if is_digit c then number_from (10 * acc + digit_value c) s' else None
  end.

(** [0|[1-9]\d*] *)
Definition numeric_identifier (s : string) : option N :=
  match s with
  | EmptyString => None
  | String "0" (String _ _) => None
  | _ => number_from 0 s
  end.

(** Splits at the first dot. *)
Fixpoint split_dot (s : string) : string * option string :=
  match s with
  | EmptyString => (EmptyString, None)
  | String c s' =>
      if Ascii.eqb c "." then (EmptyString, Some s')
      else let (a, b) := split_dot s' in (String c a, b)
  end.

Definition parse (v : value) : option (N * N * N) :=
  match v with
  | JStr s =>
      let s := match s with String "v" s' => s' | _ => s end in
      match split_dot s with
      | (major, Some rest) =>
          match split_dot rest with
          | (minor, Some patch) =>
              match numeric_identifier major, numeric_identifier minor,
                    numeric_identifier patch with
              | Some a, Some b, Some c => Some (a, b, c)
              | _, _, _ => None
              end
          | _ => None
          end
      | _ => None
      end
  | _ => None
  end.

Definition compare_triples (x y : N * N * N) : Z :=
  let '(a1, b1, c1) := x in
  let '(a2, b2, c2) := y in
  match (a1 ?= a2)%N with
  | Lt => (-1)%Z
  | Gt => 1%Z
  | Eq =>
      match (b1 ?= b2)%N with
      | Lt => (-1)%Z
      | Gt => 1%Z
      | Eq =>
          match (c1 ?= c2)%N with
          | Lt => (-1)%Z
          | Gt => 1%Z
          | Eq => 0%Z
          end
      end
  end.

Definition compare (a b : value) : completion Z :=
  match parse a, parse b with
  | Some x, Some y => Normal (compare_triples x y)
  | _, _ => Throw "TypeError: Invalid Version"
  end.

End Semver.

(** ** Concrete surroundings for the runs below *)

(** [path.join] on a directory and a plain file name, on POSIX. *)
Definition posix_join (dir file : string) : string := dir ++ "/" ++ file.

(** Does [s] end with [suffix]? *)
Fixpoint ends_with (suffix s : string) : bool :=
  if String.eqb s suffix then true
  else match s with
       | EmptyString => false
       | String _ s' => ends_with suffix s'
       end.

(** Stand-ins for the registry of supported formats and for the messages,
    for the runs below. *)
Definition sample_isSupportedImage (p : string) : bool :=
  ends_with ".img" p || ends_with ".iso" p || ends_with ".zip" p.

Definition sample_looksLikeWindowsImage (p : string) : bool :=
  ends_with "windows.iso" p.

Definition sample_invalidImage (img : image) : string :=
  path img ++ " is not a supported image type.".

Definition sample_windows_warning : string :=
  "It looks like you are trying to burn a Windows image.".

Definition sample_partition_warning : string :=
  "It looks like this is not a bootable image.".

(** The downloads directory of the runs below. *)
Definition home : string := "/home/user/Downloads".

(** A Windows image with no partition table, and the store holding an
    earlier selection. *)
Definition windows_image : image :=
  mkImage "/home/user/windows.iso" false JUndefined JUndefined.

Definition earlier_world : world :=
  mkWorld (mkController false JNull JNull)
    (Some (mkImage "/home/user/raspbian.img" true JUndefined JUndefined)) [].

(** ** Auxiliary predicates *)

(** Ascending in the order of the default sort. *)
Definition ascending : list string -> Prop :=
  Sorted (fun a b => String.leb a b = true).

(** No character of the string is [c]. *)
Fixpoint lacks (c : ascii) (s : string) : bool :=
  match s with
  | EmptyString => true
  | String d s' => negb (Ascii.eqb d c) && lacks c s'
  end.

(** ** Reading the selection, opening an image by path *)

(** Modelled from the spec: [selectionState.hasImage] and
    [selectionState.getImagePath], the two readers of the store that the
    controller calls. *)
Definition hasImage (w : world) : bool :=
  match selection w with
  | Some _ => true
  | None => false
  end.

Definition getImagePath (w : world) : option string :=
  option_map path (selection w).

Section ByPath.

Variable isSupportedImage : string -> bool.
Variable looksLikeWindowsImage : string -> bool.
Variable invalidImage_message : image -> string.
Variable looksLikeWindowsImage_message : string.
Variable missingPartitionTable_message : string.

(** Node's [path.basename], and
    [messages.error.openImage({ imageBasename, errorMessage })]. *)
Variable basename : string -> string.
Variable openImage_message : string -> string -> string.

(** [this.getImageBasename] *)
Definition getImageBasename (w : world) : string :=
  if negb (hasImage w) then ""
  else match getImagePath w with
       | Some p => basename p
       | None => ""
       end.

(** [this.selectImageByPath].  [metadata] is what the promise of
    [imageStream.getImageMetadata(imagePath)] settles to: the image, or an
    error with its message.  The second component of the result lists the
    messages of the errors given to [analytics.logException]. *)
Definition selectImageByPath (imagePath : string) (metadata : completion image)
    (answer : completion bool) (w : world) : world * list string :=
  match metadata with
  | Normal imageMetadata =>
      (exec (selectImage isSupportedImage looksLikeWindowsImage
               invalidImage_message looksLikeWindowsImage_message
               missingPartitionTable_message imageMetadata answer) w, [])
  | Throw errorMessage =>
      (exec (emit (ShowError "Error opening image"
                     (openImage_message (basename imagePath) errorMessage))) w,
       [errorMessage])
  end.

End ByPath.

(** ** Runs of the controller on its own *)

(** The events that need no user: the callbacks of the checks that [init]
    and the listener start, with [allowDownload] false, and the replies of
    the main process. *)
Definition unprompted (e : event) : bool :=
  match e with
  | Checked allowDownload _ _ => negb allowDownload
  | Downloaded _ => true
  end.

(** The number of callbacks of [checkForNewImage(true)] among the events. *)
Definition asked (events : list event) : nat :=
  length (filter (fun e => negb (unprompted e)) events).

(** What [this.currentVersion] may hold: [null], or a [v] followed by three
    dotted numeric components. *)
Definition recorded_version (v : value) : Prop :=
  v = JNull \/
  exists major minor patch,
    numeric major /\ numeric minor /\ numeric patch /\
    v = JStr ("v" ++ dotted major minor patch).

(** Did the confirmation settle to false, the answer that keeps the new
    image? *)
Definition declined (answer : completion bool) : bool :=
  match answer with
  | Normal false => true
  | _ => false
  end.

(** Stand-ins for [path.basename] and for the message of a failed opening,
    for the runs below. *)
Fixpoint posix_basename_from (acc p : string) : string :=
  match p with
  | EmptyString => acc
  | String c p' =>
      if Ascii.eqb c "/" then posix_basename_from "" p'
      else posix_basename_from (acc ++ String c "") p'
  end.

Definition posix_basename (p : string) : string := posix_basename_from "" p.

Definition sample_openImage (imageBasename errorMessage : string) : string :=
  "Something went wrong while opening " ++ imageBasename ++ ": " ++ errorMessage.

(** A release with one asset, a release whose tag is no version, and an
    image that needs no confirmation, for the runs below. *)
Definition asset_130 : asset :=
  mkAsset (JStr "https://example.org/mcu_v1.3.0.img.zip").

Definition release_130 : release := mkRelease (JStr "1.3.0") (Some [asset_130]).

Definition release_latest : release := mkRelease (JStr "latest") (Some [asset_130]).

Definition raspbian_image : image :=
  mkImage "/home/user/raspbian.img" true (JStr "<svg></svg>") JUndefined.

(** The check of [init], a failed download, an unreadable directory, a
    finished download, and the check that follows it. *)
Definition quiet_events : list event :=
  [Checked false (Some release_130) (Normal ["mcu_v1.2.0.img.zip"]);
   Downloaded (mkReply (JStr "ENOSPC") "");
   Checked false None (Throw "EACCES");
   Downloaded (mkReply JNull "/home/user/Downloads/mcu_v1.3.0.img.zip");
   Checked false (Some release_130)
     (Normal ["mcu_v1.2.0.img.zip"; "mcu_v1.3.0.img.zip"])].

(** * Properties *)

(** ** Strings *)

Module StrFacts.

Local Open Scope string_scope.

Lemma append_nil_r (s : string) : s ++ "" = s.
Proof. induction s as [|c s IH]; simpl; [reflexivity | now rewrite IH]. Qed.

Lemma append_assoc (s1 s2 s3 : string) : (s1 ++ s2) ++ s3 = s1 ++ (s2 ++ s3).
Proof. induction s1 as [|c s1 IH]; simpl; [reflexivity | now rewrite IH]. Qed.

Lemma append_eq_nil (s1 s2 : string) : s1 ++ s2 = "" -> s1 = "" /\ s2 = "".
Proof. destruct s1; simpl; intros H; [now split | discriminate]. Qed.

Lemma append_eq_cons (s1 s2 s : string) (c : ascii) :
  s1 ++ s2 = String c s ->
  (s1 = "" /\ s2 = String c s) \/ (exists s1', s1 = String c s1' /\ s = s1' ++ s2).
Proof.
  destruct s1 as [|d s1]; simpl; intros H.
  - now left.
  - injection H as -> <-. right. now exists s1.
Qed.

Lemma prefix_append (p s : string) : String.prefix p (p ++ s) = true.
Proof.
  induction p as [|c p IH]; simpl; [now destruct s |].
  destruct (ascii_dec c c); [exact IH | congruence].
Qed.

Lemma prefix_cons (a : ascii) (p : string) (b : ascii) (s : string) :
  String.prefix (String a p) (String b s) = Ascii.eqb a b && String.prefix p s.
Proof.
  cbn [String.prefix]. destruct (ascii_dec a b) as [->|n].
  - now rewrite Ascii.eqb_refl.
  - apply Ascii.eqb_neq in n. now rewrite n.
Qed.

Lemma drop_append (p s : string) : Str.drop (String.length p) (p ++ s) = s.
Proof. induction p as [|c p IH]; simpl; [reflexivity | exact IH]. Qed.

Lemma replace_unfold (pat rep s : string) :
  Str.replace pat rep s =
  if String.prefix pat s then rep ++ Str.drop (String.length pat) s
  else match s with
       | EmptyString => EmptyString
       | String c s' => String c (Str.replace pat rep s')
       end.
Proof. destruct s; reflexivity. Qed.

(** A pattern at the head of the string is the occurrence replaced. *)
Lemma replace_head (pat rep s : string) :
  Str.replace pat rep (pat ++ s) = rep ++ s.
Proof. now rewrite replace_unfold, prefix_append, drop_append. Qed.

(** Characters that do not start the pattern are stepped over. *)
Lemma replace_skip (pat rep : string) (c : ascii) (s : string) :
  String.prefix pat (String c s) = false ->
  Str.replace pat rep (String c s) = String c (Str.replace pat rep s).
Proof. intros H. now rewrite replace_unfold, H. Qed.

End StrFacts.

(** ** The order of the default sort *)

Module OrderFacts.

Import Str.

Lemma ascii_compare_refl (c : ascii) : Ascii.compare c c = Eq.
Proof. apply N.compare_refl. Qed.

Lemma ascii_compare_lt_trans (a b c : ascii) :
  Ascii.compare a b = Lt -> Ascii.compare b c = Lt -> Ascii.compare a c = Lt.
Proof.
  unfold Ascii.compare. rewrite !N.compare_lt_iff. apply N.lt_trans.
Qed.

Lemma compare_refl (s : string) : String.compare s s = Eq.
Proof.
  induction s as [|c s IH]; simpl; [reflexivity |].
  now rewrite ascii_compare_refl.
Qed.

Lemma compare_lt_trans (s1 : string) :
  forall s2 s3,
    String.compare s1 s2 = Lt -> String.compare s2 s3 = Lt ->
    String.compare s1 s3 = Lt.
Proof.
  induction s1 as [|a s1 IH]; intros [|b s2] [|c s3]; simpl;
    try discriminate; try reflexivity.
  destruct (Ascii.compare a b) eqn:Eab; try discriminate;
    destruct (Ascii.compare b c) eqn:Ebc; try discriminate; intros H12 H23.
  - apply Ascii.compare_eq_iff in Eab, Ebc. subst.
    rewrite ascii_compare_refl. eauto.
  - apply Ascii.compare_eq_iff in Eab. subst. now rewrite Ebc.
  - apply Ascii.compare_eq_iff in Ebc. subst. now rewrite Eab.
  - now rewrite (ascii_compare_lt_trans _ _ _ Eab Ebc).
Qed.

Lemma leb_refl (s : string) : String.leb s s = true.
Proof. unfold String.leb. now rewrite compare_refl. Qed.

Lemma leb_trans (s1 s2 s3 : string) :
  String.leb s1 s2 = true -> String.leb s2 s3 = true -> String.leb s1 s3 = true.
Proof.
  unfold String.leb.
  destruct (String.compare s1 s2) eqn:E12; try discriminate;
    destruct (String.compare s2 s3) eqn:E23; try discriminate; intros _ _.
  - apply String.compare_eq_iff in E12, E23. subst. now rewrite compare_refl.
  - apply String.compare_eq_iff in E12. subst. now rewrite E23.
  - apply String.compare_eq_iff in E23. subst. now rewrite E12.
  - now rewrite (compare_lt_trans _ _ _ E12 E23).
Qed.

Lemma leb_false_flip (s1 s2 : string) :
  String.leb s1 s2 = false -> String.leb s2 s1 = true.
Proof.
  intros H. destruct (String.leb_total s1 s2) as [H'|H']; congruence.
Qed.

Lemma insert_perm (x : string) (l : list string) :
  Permutation (x :: l) (Str.insert x l).
Proof.
  induction l as [|y l IH]; simpl; [reflexivity |].
  destruct (String.leb x y); [reflexivity |].
  rewrite perm_swap. now constructor.
Qed.

Lemma sort_perm (l : list string) : Permutation l (Str.sort l).
Proof.
  induction l as [|x l IH]; simpl; [constructor |].
  rewrite <- insert_perm. now constructor.
Qed.

Lemma insert_hd_rel (x a : string) (l : list string) :
  String.leb a x = true ->
  HdRel (fun a b => String.leb a b = true) a l ->
  HdRel (fun a b => String.leb a b = true) a (Str.insert x l).
Proof.
  intros Hax Hl. destruct l as [|y l]; simpl.
  - now constructor.
  - destruct (String.leb x y); constructor; [assumption |].
    now inversion Hl.
Qed.

Lemma insert_ascending (x : string) (l : list string) :
  ascending l -> ascending (Str.insert x l).
Proof.
  unfold ascending.
  induction l as [|y l IH]; simpl; intros Hl.
  - repeat constructor.
  - destruct (String.leb x y) eqn:E.
    + constructor; [assumption | now constructor].
    + inversion Hl; subst. constructor; [auto |].
      apply insert_hd_rel; [now apply leb_false_flip | assumption].
Qed.

Lemma sort_ascending (l : list string) : ascending (Str.sort l).
Proof.
  induction l as [|x l IH]; simpl; [constructor | now apply insert_ascending].
Qed.

(** In an ascending list every element is below the last one. *)
Lemma ascending_last (l : list string) (x : string) :
  ascending (l ++ [x]) -> forall y, In y (l ++ [x]) -> String.leb y x = true.
Proof.
  unfold ascending.
  induction l as [|a l IH]; simpl; intros Hs y Hy.
  - destruct Hy as [<-|[]]. apply leb_refl.
  - inversion Hs; subst. destruct Hy as [<-|Hy]; [| now apply IH].
    destruct l as [|b l]; simpl in *.
    + now inversion H2.
    + inversion H2; subst. eapply leb_trans; [eassumption |].
      apply IH; [assumption | now left].
Qed.

End OrderFacts.

(** ** The matcher decides the language of the pattern *)

Module RegexFacts.

Import StrFacts.
Local Open Scope string_scope.

Lemma matches_nil_nullable (r : regex) (s : string) :
  Matches r s -> s = "" -> nullable r = true.
Proof.
  induction 1; intros E; simpl; try discriminate; try reflexivity.
  - apply append_eq_nil in E as [-> ->]. now rewrite IHMatches1, IHMatches2.
  - now rewrite IHMatches.
  - rewrite IHMatches by assumption. apply orb_true_r.
Qed.

Lemma nullable_matches_nil (r : regex) : nullable r = true -> Matches r "".
Proof.
  induction r; simpl; intros H; try discriminate.
  - constructor.
  - apply andb_true_iff in H as [H1 H2].
    change "" with ("" ++ ""). constructor; auto.
  - apply orb_true_iff in H as [H|H]; [apply MAltL | apply MAltR]; auto.
  - constructor.
Qed.

Lemma nullable_spec (r : regex) : nullable r = true <-> Matches r "".
Proof.
  split; [apply nullable_matches_nil |].
  intros H. now apply (matches_nil_nullable r "").
Qed.

Lemma deriv_complete (r : regex) (s0 : string) :
  Matches r s0 -> forall c s, s0 = String c s -> Matches (deriv c r) s.
Proof.
  induction 1; intros a t E; simpl.
  - discriminate.
  - injection E as -> <-. rewrite Ascii.eqb_refl. constructor.
  - injection E as -> <-. rewrite H. constructor.
  - apply append_eq_cons in E as [[-> ->]|[s1' [-> ->]]].
    + rewrite (matches_nil_nullable r1 "" H eq_refl).
      apply MAltR. now apply IHMatches2.
    + destruct (nullable r1); [apply MAltL |]; constructor; auto.
  - apply MAltL. auto.
  - apply MAltR. auto.
  - discriminate.
  - apply append_eq_cons in E as [[-> ->]|[s1' [-> ->]]].
    + now apply IHMatches2.
    + constructor; auto.
Qed.

Lemma deriv_sound (c : ascii) (r : regex) :
  forall s, Matches (deriv c r) s -> Matches r (String c s).
Proof.
  induction r; simpl; intros s H.
  - inversion H.
  - inversion H.
  - destruct (Ascii.eqb_spec c c0) as [->|]; inversion H; subst. constructor.
  - destruct (is_digit c) eqn:E; inversion H; subst. now constructor.
  - assert (Hseq : forall t, Matches (RSeq (deriv c r1) r2) t ->
                             Matches (RSeq r1 r2) (String c t)).
    { intros t Ht. inversion Ht; subst.
      change (String c (s1 ++ s2)) with (String c s1 ++ s2).
      constructor; auto. }
    destruct (nullable r1) eqn:E; [| now apply Hseq].
    inversion H; subst; [now apply Hseq |].
    change (String c s) with ("" ++ String c s).
    constructor; [now apply nullable_matches_nil | auto].
  - inversion H; subst; [apply MAltL | apply MAltR]; auto.
  - inversion H; subst.
    change (String c (s1 ++ s2)) with (String c s1 ++ s2).
    constructor; auto.
Qed.

Lemma deriv_spec (c : ascii) (r : regex) (s : string) :
  Matches (deriv c r) s <-> Matches r (String c s).
Proof.
  split; [apply deriv_sound |].
  intros H. now apply (deriv_complete r (String c s)).
Qed.

Theorem test_anchored_spec (s : string) :
  forall r, test_anchored r s = true <-> Matches r s.
Proof.
  induction s as [|c s IH]; intros r; simpl.
  - apply nullable_spec.
  - rewrite IH. apply deriv_spec.
Qed.

(** *** The languages of the building blocks *)

Lemma matches_seq (r1 r2 : regex) (s : string) :
  Matches (RSeq r1 r2) s <->
  exists s1 s2, s = s1 ++ s2 /\ Matches r1 s1 /\ Matches r2 s2.
Proof.
  split.
  - intros H. inversion H; subst. now exists s1, s2.
  - intros (s1 & s2 & -> & H1 & H2). now constructor.
Qed.

Lemma matches_char (c : ascii) (s : string) :
  Matches (RChar c) s <-> s = String c "".
Proof.
  split; [intros H; now inversion H | intros ->; constructor].
Qed.

Lemma matches_lit (l : string) : forall s, Matches (RLit l) s <-> s = l.
Proof.
  induction l as [|c l IH]; intros s; simpl.
  - split; [intros H; now inversion H | intros ->; constructor].
  - rewrite matches_seq. split.
    + intros (s1 & s2 & -> & H1 & H2).
      apply matches_char in H1 as ->. apply IH in H2 as ->. reflexivity.
    + intros ->. exists (String c ""), l. repeat split.
      * constructor.
      * now apply IH.
Qed.

Lemma matches_digit (s : string) :
  Matches RDigit s <-> exists c, is_digit c = true /\ s = String c "".
Proof.
  split.
  - intros H. inversion H; subst. now exists c.
  - intros (c & Hc & ->). now constructor.
Qed.

Lemma matches_star_digit_sound (r : regex) (s : string) :
  Matches r s -> r = RStar RDigit -> all_digits s = true.
Proof.
  induction 1; intros E; try discriminate; [reflexivity |].
  injection E as ->. apply matches_digit in H as (c & Hc & ->). simpl.
  rewrite Hc. now apply IHMatches2.
Qed.

Lemma matches_star_digit (s : string) :
  Matches (RStar RDigit) s <-> all_digits s = true.
Proof.
  split.
  - intros H. now apply (matches_star_digit_sound (RStar RDigit) s).
  - induction s as [|c s IH]; simpl; intros H; [constructor |].
    apply andb_true_iff in H as [Hc Hs].
    change (String c s) with (String c "" ++ s).
    constructor; [now constructor | auto].
Qed.

Lemma matches_plus_digit (s : string) :
  Matches (RPlus RDigit) s <-> numeric s.
Proof.
  unfold RPlus, numeric. rewrite matches_seq. split.
  - intros (s1 & s2 & -> & H1 & H2).
    apply matches_digit in H1 as (c & Hc & ->).
    apply matches_star_digit in H2. simpl. rewrite Hc, H2. now split.
  - intros [H Hne]. destruct s as [|c s]; [congruence |].
    simpl in H. apply andb_true_iff in H as [Hc Hs].
    exists (String c ""), s. repeat split.
    + now constructor.
    + now apply matches_star_digit.
Qed.

End RegexFacts.

(** ** Firmware file names *)

Module FirmwareFacts.

Import StrFacts RegexFacts OrderFacts.
Local Open Scope string_scope.

Lemma firmware_name_unfold (a b c : string) :
  firmware_name a b c =
  "mcu_v" ++ a ++ String "." (b ++ String "." (c ++ ".img.zip")).
Proof.
  unfold firmware_name, dotted. simpl.
  now rewrite !append_assoc; simpl; rewrite !append_assoc.
Qed.

(** The pattern of the filter and the naming convention are one language. *)
Lemma is_mcu_image_spec (file : string) :
  is_mcu_image file = true <-> is_firmware_name file.
Proof.
  unfold is_mcu_image, is_firmware_name, mcu_image_pattern.
  rewrite test_anchored_spec. split.
  - intros H.
    apply matches_seq in H as (p & s1 & -> & Hp & H).
    apply matches_lit in Hp as ->.
    apply matches_seq in H as (a & s2 & -> & Ha & H).
    apply matches_seq in H as (d1 & s3 & -> & Hd1 & H).
    apply matches_char in Hd1 as ->.
    apply matches_seq in H as (b & s4 & -> & Hb & H).
    apply matches_seq in H as (d2 & s5 & -> & Hd2 & H).
    apply matches_char in Hd2 as ->.
    apply matches_seq in H as (c & s6 & -> & Hc & H).
    apply matches_lit in H as ->.
    apply matches_plus_digit in Ha, Hb, Hc.
    exists a, b, c. split; [assumption |]. split; [assumption |].
    split; [assumption |]. rewrite firmware_name_unfold. reflexivity.
  - intros (a & b & c & Ha & Hb & Hc & ->).
    rewrite firmware_name_unfold.
    apply matches_plus_digit in Ha, Hb, Hc.
    apply MSeq; [now apply matches_lit |].
    apply MSeq; [assumption |].
    apply (MSeq _ _ (String "." "")); [constructor |].
    apply MSeq; [assumption |].
    apply (MSeq _ _ (String "." "")); [constructor |].
    apply MSeq; [assumption | now apply matches_lit].
Qed.

Lemma lacks_append (c : ascii) (s t : string) :
  lacks c (s ++ t) = lacks c s && lacks c t.
Proof.
  induction s as [|d s IH]; simpl; [reflexivity |].
  now rewrite IH, andb_assoc.
Qed.

Lemma digits_lack_i (s : string) : all_digits s = true -> lacks "i" s = true.
Proof.
  induction s as [|d s IH]; simpl; [reflexivity |].
  intros H. apply andb_true_iff in H as [Hd Hs]. rewrite (IH Hs).
  destruct (Ascii.eqb_spec d "i") as [->|]; [discriminate | reflexivity].
Qed.

Lemma dotted_lacks_i (a b c : string) :
  all_digits a = true -> all_digits b = true -> all_digits c = true ->
  lacks "i" (dotted a b c) = true.
Proof.
  intros Ha Hb Hc. unfold dotted.
  rewrite lacks_append. simpl. rewrite lacks_append. simpl.
  now rewrite !digits_lack_i.
Qed.

(** Before the extension, no [.img.zip] starts in a string without [i]. *)
Lemma replace_extension (t : string) :
  lacks "i" t = true -> Str.replace ".img.zip" "" (t ++ ".img.zip") = t.
Proof.
  induction t as [|c t IH]; intros H.
  - reflexivity.
  - simpl in H. apply andb_true_iff in H as [Hc Ht].
    change (String c t ++ ".img.zip") with (String c (t ++ ".img.zip")).
    rewrite replace_skip, IH; auto.
    change ".img.zip" with (String "." "img.zip") at 1. rewrite prefix_cons.
    destruct t as [|d t].
    + change (String.prefix "img.zip" ("" ++ ".img.zip")) with false.
      apply andb_false_r.
    + change (String d t ++ ".img.zip") with (String d (t ++ ".img.zip")).
      change "img.zip" with (String "i" "mg.zip"). rewrite prefix_cons.
      destruct (Ascii.eqb_spec "i" d) as [<-|]; [discriminate Ht |].
      apply andb_false_r.
Qed.

(** What the two replacements leave of a firmware file name. *)
Lemma latestDownload_firmware_name (a b c : string) :
  numeric a -> numeric b -> numeric c ->
  latestDownload (firmware_name a b c) = "v" ++ dotted a b c.
Proof.
  intros [Ha _] [Hb _] [Hc _]. unfold latestDownload, firmware_name.
  change ("mcu_v" ++ dotted a b c ++ ".img.zip")
    with ("mcu_" ++ (String "v" (dotted a b c) ++ ".img.zip")).
  rewrite replace_head.
  change ("" ++ String "v" (dotted a b c) ++ ".img.zip")
    with (("v" ++ dotted a b c) ++ ".img.zip").
  apply replace_extension. simpl. now apply dotted_lacks_i.
Qed.

(** The head of [mcuImages] is one of the names kept, and none is above. *)
Lemma mcuImages_head (dirs : list string) (newest : string) (rest : list string) :
  mcuImages dirs = newest :: rest ->
  In newest (filter is_mcu_image dirs) /\
  forall g, In g (filter is_mcu_image dirs) -> String.leb g newest = true.
Proof.
  unfold mcuImages. intros H.
  assert (E : Str.sort (filter is_mcu_image dirs) = (rev rest ++ [newest])%list).
  { rewrite <- (rev_involutive (Str.sort _)), H. reflexivity. }
  pose proof (sort_ascending (filter is_mcu_image dirs)) as Hs.
  pose proof (sort_perm (filter is_mcu_image dirs)) as Hp.
  rewrite E in Hs, Hp. split.
  - eapply Permutation_in; [symmetry; exact Hp |].
    apply in_or_app. right. now left.
  - intros g Hg. apply (ascending_last _ _ Hs).
    eapply Permutation_in; eassumption.
Qed.


End FirmwareFacts.

(** ** The update check *)

Ltac unfold_js :=
  unfold exec, checkForNewImage, scan_downloads, on_download_mcu,
    bind, ret, lift, throw, try_catch, emit, get_ctrl, modify_ctrl,
    set_ctrl, set_selection in *.

Ltac open_callback :=
  unfold_js; unfold has_assets, first_asset_url in *; simpl.

(** One case analysis along the callback: the reply, the listing, the
    images found. *)
Ltac case_step :=
  match goal with
  | r : release |- _ => destruct r as [? [[|? ?]|]]
  | |- context [match ?x with _ => _ end] => is_var x; destruct x
  | |- context [mcuImages ?l] =>
      let E := fresh "Eimages" in destruct (mcuImages l) eqn:E
  end.

(** The same, with the outcome of [updateAvailable] as one more case. *)
Ltac split_cases :=
  open_callback;
  repeat (first [ case_step
                | match goal with
                  | |- context [updateAvailable ?s ?c] =>
                      let E := fresh "Eupdate" in
                      destruct (updateAvailable s c) as [[|]|] eqn:E
                  end ]; simpl).

(** The same, down to the operands of the comparison. *)
Ltac split_cases_deep :=
  open_callback; unfold updateAvailable; simpl;
  repeat (first [ case_step
                | match goal with
                  | |- context [truthy ?v && _] => destruct (truthy v)
                  | |- context [match ?f ?x ?y with Normal _ => _ | Throw _ => _ end] =>
                      destruct (f x y)
                  | |- context [(0 <? ?z)%Z] => destruct (0 <? z)%Z
                  | |- context [if ?b then _ else _] => destruct b
                  end ]; simpl).

Section ControllerFacts.

Variable semver_compare : value -> value -> completion Z.
Variable downloads : string.
Variable path_join : string -> string -> string.

Local Notation "'check'" := (checkForNewImage semver_compare downloads path_join).

Lemma download_requests_app (l1 l2 : list effect) :
  download_requests (l1 ++ l2) = download_requests l1 ++ download_requests l2.
Proof. apply filter_app. Qed.

(** With [allowDownload] false the callback sends nothing. *)
Lemma check_default_sends_nothing (json : option release)
    (dirs : completion (list string)) (w : world) :
  download_requests (log (exec (check false json dirs) w)) =
  download_requests (log w).
Proof.
  split_cases; rewrite ?download_requests_app, ?app_nil_r; reflexivity.
Qed.

(** The callback never reads [this.downloading]. *)
Lemma check_ignores_downloading (allowDownload : bool) (json : option release)
    (dirs : completion (list string)) (w : world) (b : bool) :
  log (exec (check allowDownload json dirs)
         (set_ctrl (set_downloading b (ctrl w)) w)) =
  log (exec (check allowDownload json dirs) w).
Proof.
  destruct w as [[d av cv] sel lg]. split_cases_deep; reflexivity.
Qed.

(** Any one callback sends one request at most. *)
Lemma check_sends_at_most_one (allowDownload : bool) (json : option release)
    (dirs : completion (list string)) (w : world) :
  length (download_requests (log (exec (check allowDownload json dirs) w)))
  <= S (length (download_requests (log w))).
Proof.
  split_cases; rewrite ?download_requests_app, ?length_app; simpl; lia.
Qed.

(** Without a release that has an asset the callback sends nothing. *)
Lemma check_remote_none_sends_nothing (allowDownload : bool)
    (json : option release) (dirs : completion (list string)) (w : world) :
  has_assets json = false ->
  download_requests (log (exec (check allowDownload json dirs) w)) =
  download_requests (log w).
Proof.
  intros H. revert H.
  split_cases; intros H; try discriminate H;
    rewrite ?download_requests_app, ?app_nil_r; reflexivity.
Qed.

(** The version recorded is what the replacements leave of the newest name. *)
Lemma check_currentVersion (allowDownload : bool) (json : option release)
    (dirs : list string) (newest : string) (rest : list string) (w : world) :
  mcuImages dirs = newest :: rest ->
  currentVersion (ctrl (exec (check allowDownload json (Normal dirs)) w)) =
  JStr (latestDownload newest).
Proof.
  intros H. open_callback. rewrite H. split_cases; reflexivity.
Qed.


(** The reply of the main process clears the flag, whatever it carries. *)
Lemma download_reply_clears_flag (arg : download_reply) (w : world) :
  downloading (ctrl (exec (on_download_mcu arg) w)) = false.
Proof. unfold_js. destruct (is_nullish (error arg)); reflexivity. Qed.

(** C1 (the code departs from the claim): when the release client yields
    none and the downloads directory holds no firmware image, a callback of
    [checkForNewImage(true)] issues no download request, as claimed, yet
    leaves [downloading] true, with no request in flight to clear it. *)
Theorem remote_none_flag_raised_without_request
    (json : option release) (dirs : list string) (w : world) :
  has_assets json = false ->
  mcuImages dirs = [] ->
  downloading (ctrl (exec (check true json (Normal dirs)) w)) = true /\
  download_requests (log (exec (check true json (Normal dirs)) w)) =
  download_requests (log w).
Proof.
  intros Hjson Himages. split.
  - revert Hjson. open_callback. rewrite Himages.
    split_cases; intros Hjson; try discriminate Hjson; reflexivity.
  - now apply check_remote_none_sends_nothing.
Qed.

(** C2: [updateAvailable] returns true exactly when both versions are
    present (truthy: neither null nor the empty string) and
    [semver.compare] of the available against the current one is positive;
    it returns false when either is absent, and when the comparison yields
    equal or less. *)
Theorem updateAvailable_true_iff (c : controller) :
  (updateAvailable semver_compare c = Normal true <->
   truthy (availableVersion c) = true /\
   truthy (currentVersion c) = true /\
   exists z, semver_compare (availableVersion c) (currentVersion c) = Normal z
             /\ (0 < z)%Z) /\
  (truthy (availableVersion c) = false \/ truthy (currentVersion c) = false ->
   updateAvailable semver_compare c = Normal false) /\
  (forall z, truthy (availableVersion c) = true ->
             truthy (currentVersion c) = true ->
             semver_compare (availableVersion c) (currentVersion c) = Normal z ->
             (z <= 0)%Z ->
             updateAvailable semver_compare c = Normal false).
Proof.
  unfold updateAvailable. repeat split.
  - destruct (truthy (availableVersion c)); [reflexivity | discriminate].
  - destruct (truthy (availableVersion c)), (truthy (currentVersion c));
      try discriminate; reflexivity.
  - destruct (truthy (availableVersion c)), (truthy (currentVersion c));
      try discriminate; simpl in H.
    destruct (semver_compare _ _) as [z|]; [| discriminate].
    exists z. split; [reflexivity |].
    injection H as H. now apply Z.ltb_lt.
  - intros (Ha & Hc & z & Hz & Hpos). rewrite Ha, Hc, Hz. simpl.
    apply Z.ltb_lt in Hpos. now rewrite Hpos.
  - intros [H|H]; rewrite H; [reflexivity | now rewrite andb_false_r].
  - intros z Ha Hc Hz Hle. rewrite Ha, Hc, Hz. simpl.
    apply Z.ltb_ge in Hle. now rewrite Hle.
Qed.

(** What a callback adds to the log is what it logs from an empty log. *)
Lemma check_log_frame (allowDownload : bool) (json : option release)
    (dirs : completion (list string)) (w : world) :
  log (exec (check allowDownload json dirs) w) =
  log w ++
    log (exec (check allowDownload json dirs)
           (mkWorld (ctrl w) (selection w) [])).
Proof.
  destruct w as [[d av cv] sel lg].
  split_cases_deep; rewrite <- ?app_assoc, ?app_nil_r; reflexivity.
Qed.

(** Of the world it finds, the effects of a callback depend on the
    available version alone, and on that only when the reply brings none. *)
Lemma check_effects_by_version (allowDownload : bool) (json : option release)
    (dirs : completion (list string)) (c1 c2 : controller)
    (s1 s2 : option image) :
  (has_assets json = false -> availableVersion c1 = availableVersion c2) ->
  log (exec (check allowDownload json dirs) (mkWorld c1 s1 [])) =
  log (exec (check allowDownload json dirs) (mkWorld c2 s2 [])).
Proof.
  intros H. destruct c1 as [d1 av1 cv1], c2 as [d2 av2 cv2].
  destruct json as [[tag [[|a0 rest]|]]|]; simpl in H;
    try (specialize (H eq_refl); subst av2);
    split_cases_deep; reflexivity.
Qed.

Lemma check_keeps_stale_version (allowDownload : bool) (json : option release)
    (dirs : completion (list string)) (w : world) :
  has_assets json = false ->
  availableVersion (ctrl (exec (check allowDownload json dirs) w)) =
  availableVersion (ctrl w).
Proof.
  intros H. revert H. split_cases; intros H; try discriminate H; reflexivity.
Qed.

(** Run again on the same reply and the same listing, a callback repeats
    its effects. *)
Lemma check_repeats (allowDownload : bool) (json : option release)
    (dirs : completion (list string)) (w : world) :
  log (exec (check allowDownload json dirs)
         (exec (check allowDownload json dirs) w)) =
  log (exec (check allowDownload json dirs) w) ++
    log (exec (check allowDownload json dirs)
           (mkWorld (ctrl w) (selection w) [])).
Proof.
  rewrite (check_log_frame _ _ _ (exec _ w)). f_equal.
  apply check_effects_by_version. intros H.
  now apply check_keeps_stale_version.
Qed.

(** C3 (amended): [checkForNewImage] holds no guard on [downloading].  What
    a callback sends is the same whether a download is in flight or not;
    with [allowDownload] false, the default and the only way the controller
    itself calls it, it sends no download request in any state; one
    callback sends one request at most; and a second callback on the same
    reply and the same listing, run in the state the first one left, repeats
    the effects of the first, so it sends a download request again whenever
    the first sent one. *)
Theorem check_requests_regardless_of_flag (allowDownload : bool)
    (json : option release) (dirs : completion (list string)) (w : world)
    (b : bool) :
  log (exec (check allowDownload json dirs)
         (set_ctrl (set_downloading b (ctrl w)) w)) =
  log (exec (check allowDownload json dirs) w) /\
  download_requests (log (exec (check false json dirs) w)) =
  download_requests (log w) /\
  length (download_requests (log (exec (check allowDownload json dirs) w)))
  <= S (length (download_requests (log w))) /\
  (exists added,
      log (exec (check allowDownload json dirs) w) = log w ++ added /\
      log (exec (check allowDownload json dirs)
             (exec (check allowDownload json dirs) w)) =
      log w ++ added ++ added) /\
  (exists sent,
      download_requests (log (exec (check allowDownload json dirs) w)) =
      download_requests (log w) ++ sent /\
      download_requests
        (log (exec (check allowDownload json dirs)
                (exec (check allowDownload json dirs) w))) =
      download_requests (log w) ++ sent ++ sent).
Proof.
  split; [apply check_ignores_downloading |].
  split; [apply check_default_sends_nothing |].
  split; [apply check_sends_at_most_one |].
  assert (H : log (exec (check allowDownload json dirs) w) =
              log w ++ log (exec (check allowDownload json dirs)
                              (mkWorld (ctrl w) (selection w) [])) /\
              log (exec (check allowDownload json dirs)
                     (exec (check allowDownload json dirs) w)) =
              log w ++ log (exec (check allowDownload json dirs)
                              (mkWorld (ctrl w) (selection w) [])) ++
                log (exec (check allowDownload json dirs)
                       (mkWorld (ctrl w) (selection w) []))).
  { split; [apply check_log_frame |].
    rewrite check_repeats, (check_log_frame _ _ _ w) at 1.
    now rewrite <- app_assoc. }
  destruct H as [H1 H2]. split.
  - exists (log (exec (check allowDownload json dirs)
                   (mkWorld (ctrl w) (selection w) []))).
    now split.
  - exists (download_requests
              (log (exec (check allowDownload json dirs)
                      (mkWorld (ctrl w) (selection w) [])))).
    rewrite H2, H1 at 1. rewrite !download_requests_app. now split.
Qed.

(** C5 (amended): when the newest firmware file is
    [mcu_v<major>.<minor>.<patch>.img.zip], the version recorded by
    [checkForNewImage] is [v<major>.<minor>.<patch>]: the two replacements
    take off [mcu_] and [.img.zip], and the [v] stays. *)
Theorem currentVersion_keeps_v_prefix (allowDownload : bool)
    (json : option release) (dirs : list string)
    (major minor patch : string) (rest : list string) (w : world) :
  numeric major -> numeric minor -> numeric patch ->
  mcuImages dirs = firmware_name major minor patch :: rest ->
  currentVersion (ctrl (exec (check allowDownload json (Normal dirs)) w)) =
  JStr ("v" ++ dotted major minor patch).
Proof.
  intros Ha Hb Hc H.
  rewrite (check_currentVersion _ _ _ _ _ _ H).
  now rewrite FirmwareFacts.latestDownload_firmware_name.
Qed.


End ControllerFacts.

(** ** The prompt and the filter *)

(** C4 (amended): [downloadPrompt] returns ["Downloading..."] whenever
    [downloading] is true; otherwise it returns ["Download "] followed by
    [availableVersion] as JavaScript writes it: the version itself when it
    is a string (["Download 1.3.0"] for ["1.3.0"]), and [null] when no
    version was ever recorded. *)
Theorem downloadPrompt_label (c : controller) :
  (downloading c = true -> downloadPrompt c = "Downloading...") /\
  (downloading c = false ->
   forall s, availableVersion c = JStr s -> downloadPrompt c = ("Download " ++ s)%string) /\
  (downloading c = false -> availableVersion c = JNull ->
   downloadPrompt c = "Download null") /\
  downloadPrompt (mkController false (JStr "1.3.0") (currentVersion c)) =
  "Download 1.3.0".
Proof.
  unfold downloadPrompt. repeat split.
  - now intros ->.
  - now intros -> s ->.
  - now intros -> ->.
Qed.

(** C4, as stated, fails on the controller as built: no version is known,
    the download is not running, and the label is not ["Download "]. *)
Lemma downloadPrompt_unset_version :
  downloading (ctrl initial) = false /\
  availableVersion (ctrl initial) = JNull /\
  downloadPrompt (ctrl initial) = "Download null" /\
  downloadPrompt (ctrl initial) <> "Download ".
Proof. repeat split. discriminate. Qed.

(** C6: the filter keeps exactly the directory entries that are firmware
    file names, [mcu_v<major>.<minor>.<patch>.img.zip] with three numeric
    components; names in another case, with a component missing, or with
    the pattern inside a longer name, are dropped. *)
Theorem filter_keeps_firmware_names :
  (forall dirs file,
      In file (filter is_mcu_image dirs) <->
      In file dirs /\ is_firmware_name file) /\
  filter is_mcu_image
    ["mcu_v1.2.3.img.zip"; "MCU_V1.2.3.IMG.ZIP"; "mcu_v1.2.3.IMG.zip";
     "mcu_v1.2.img.zip"; "mcu_v1.2.3.4.img.zip"; "mcu_v1.2.x.img.zip";
     "xmcu_v1.2.3.img.zip"; "mcu_v1.2.3.img.zip.part"; "mcu_v1..3.img.zip";
     "mcu_v10.20.30.img.zip"; "mcu_1.2.3.img.zip"; "mcu_v1.2.3.img"; ""]
  = ["mcu_v1.2.3.img.zip"; "mcu_v10.20.30.img.zip"].
Proof.
  split; [| reflexivity].
  intros dirs file. rewrite filter_In.
  now rewrite FirmwareFacts.is_mcu_image_spec.
Qed.

(** ** Selecting an image *)

Section SelectionFacts.

Variable isSupportedImage : string -> bool.
Variable looksLikeWindowsImage : string -> bool.
Variable invalidImage_message : image -> string.
Variable looksLikeWindowsImage_message : string.
Variable missingPartitionTable_message : string.

Local Notation "'select'" :=
  (selectImage isSupportedImage looksLikeWindowsImage invalidImage_message
     looksLikeWindowsImage_message missingPartitionTable_message).

Ltac open_select :=
  unfold exec, selectImage, confirm, commit, reselectImage,
    bind, ret, lift, throw, try_catch, emit, set_selection; simpl.

Lemma truthy_JStr (s : string) : s <> "" -> truthy (JStr s) = true.
Proof.
  intros H. simpl. apply negb_true_iff. now apply String.eqb_neq.
Qed.

Lemma displayed_app (l1 l2 : list effect) :
  displayed (l1 ++ l2) = displayed l1 ++ displayed l2.
Proof. apply filter_app. Qed.

(** C8: [selectImage] runs its checks in one order.  An unsupported
    extension is rejected outright: the error is shown and logged, nothing
    is committed and no confirmation is shown.  Otherwise one confirmation
    at most is shown, the first that applies: the Windows warning when the
    image looks like a Windows image, whatever [hasMBR] says, else the
    partition table warning when [hasMBR] is false, else none.  The two
    warnings are taken to be non-empty texts. *)
Theorem selectImage_check_order (image : image) (answer : completion bool)
    (w : world) :
  looksLikeWindowsImage_message <> "" ->
  missingPartitionTable_message <> "" ->
  displayed (log (exec (select image answer) w)) =
  displayed (log w) ++
    (if negb (isSupportedImage (path image)) then []
     else if looksLikeWindowsImage (path image) then
       [Display "Change" "Continue" looksLikeWindowsImage_message]
     else if negb (hasMBR image) then
       [Display "Change" "Continue" missingPartitionTable_message]
     else []) /\
  length (displayed (log (exec (select image answer) w)))
  <= S (length (displayed (log w))) /\
  (isSupportedImage (path image) = false ->
   selection (exec (select image answer) w) = selection w /\
   log (exec (select image answer) w) =
   log w ++ [ShowError "Invalid image" (invalidImage_message image);
             LogEvent "Invalid image" (OfImage image)]).
Proof.
  intros HW HM.
  pose proof (truthy_JStr _ HW) as TW. pose proof (truthy_JStr _ HM) as TM.
  simpl in TW, TM. open_select.
  destruct (isSupportedImage (path image)); simpl.
  - destruct (looksLikeWindowsImage (path image)); simpl;
      [rewrite TW | destruct (hasMBR image); simpl; [| rewrite TM]];
      simpl; destruct answer as [[|]|]; simpl;
      rewrite ?displayed_app, ?length_app, ?app_nil_r; simpl;
      rewrite <- ?app_assoc; simpl;
      repeat split; try discriminate; try lia.
  - rewrite !displayed_app, !length_app, <- !app_assoc. simpl.
    rewrite app_nil_r. repeat split; lia.
Qed.

(** C9 (the code departs from the claim): for a supported image that
    triggers a confirmation (it looks like a Windows image, or [hasMBR] is
    false), when the modal resolves to true the image is not committed and
    the stored selection stays as it was, as claimed; [reselectImage] is
    called, but the re-selection does not take place: it logs the event
    with the stored image, and its call of [openImageSelector], a method
    whose definition is commented out, throws a [TypeError] that goes to the
    exception reporter.  When the modal resolves to false the image is
    committed with [setImage] and is the stored selection, whatever was
    stored before. *)
Theorem selectImage_confirmation_outcome (image : image) (w : world) :
  looksLikeWindowsImage_message <> "" ->
  missingPartitionTable_message <> "" ->
  isSupportedImage (path image) = true ->
  looksLikeWindowsImage (path image) = true \/ hasMBR image = false ->
  (selection (exec (select image (Normal true)) w) = selection w /\
   filter is_setImage (log (exec (select image (Normal true)) w)) =
   filter is_setImage (log w) /\
   exists warned,
     log (exec (select image (Normal true)) w) =
     log w ++ warned ++
       [LogEvent "Reselect image" (PreviousImage (selection w));
        Report "TypeError: this.openImageSelector is not a function"]) /\
  (selection (exec (select image (Normal false)) w) = Some image /\
   exists warned,
     log (exec (select image (Normal false)) w) =
     log w ++ warned ++
       [SetImage image;
        LogEvent "Select image"
          (OfImage (mkImage (path image) (hasMBR image)
                      (Boolean (logo image)) (Boolean (bmap image))))]).
Proof.
  intros HW HM Hsup Htrig.
  pose proof (truthy_JStr _ HW) as TW. pose proof (truthy_JStr _ HM) as TM.
  simpl in TW, TM. open_select. rewrite Hsup. simpl.
  destruct (looksLikeWindowsImage (path image)); simpl.
  - rewrite TW. simpl.
    split; [split; [reflexivity | split] | split; [reflexivity |]].
    + rewrite !filter_app. simpl. now rewrite !app_nil_r.
    + exists [LogEvent "Possibly Windows image" (OfImage image);
              Display "Change" "Continue" looksLikeWindowsImage_message].
      now rewrite <- !app_assoc.
    + exists [LogEvent "Possibly Windows image" (OfImage image);
              Display "Change" "Continue" looksLikeWindowsImage_message].
      now rewrite <- !app_assoc.
  - destruct Htrig as [Htrig|Htrig]; [discriminate |].
    rewrite Htrig. simpl. rewrite TM. simpl.
    split; [split; [reflexivity | split] | split; [reflexivity |]].
    + rewrite !filter_app. simpl. now rewrite !app_nil_r.
    + exists [LogEvent "Missing partition table" (OfImage image);
              Display "Change" "Continue" missingPartitionTable_message].
      now rewrite <- !app_assoc.
    + exists [LogEvent "Missing partition table" (OfImage image);
              Display "Change" "Continue" missingPartitionTable_message].
      now rewrite <- !app_assoc.
Qed.

End SelectionFacts.

(** ** The published extension lists *)

Section ExtensionFacts.

Variable getAllExtensions : list string.

Local Notation "'main'" := (mainSupportedExtensions getAllExtensions).
Local Notation "'extra'" := (extraSupportedExtensions getAllExtensions).

Lemma includes_In (x : string) (l : list string) :
  Lodash.includes x l = true <-> In x l.
Proof.
  unfold Lodash.includes. rewrite existsb_exists. split.
  - intros (y & Hy & E). apply String.eqb_eq in E. now subst.
  - intros H. exists x. split; [assumption | apply String.eqb_refl].
Qed.

Lemma includes_false (x : string) (l : list string) :
  Lodash.includes x l = false <-> ~ In x l.
Proof.
  rewrite <- includes_In. destruct (Lodash.includes x l); split; congruence.
Qed.

(** The intersection, written out on the three main extensions. *)
Lemma main_as_filter :
  main = filter (fun x => Lodash.includes x getAllExtensions) ["img"; "iso"; "zip"].
Proof.
  unfold mainSupportedExtensions, Lodash.intersection. simpl.
  destruct (Lodash.includes "img" getAllExtensions),
    (Lodash.includes "iso" getAllExtensions),
    (Lodash.includes "zip" getAllExtensions); reflexivity.
Qed.

Lemma in_main (x : string) :
  In x main <-> In x ["img"; "iso"; "zip"] /\ In x getAllExtensions.
Proof. now rewrite main_as_filter, filter_In, includes_In. Qed.

Lemma in_extra (x : string) :
  In x extra <-> In x getAllExtensions /\ ~ In x main.
Proof.
  unfold extraSupportedExtensions, Lodash.difference. split.
  - intros H.
    apply (Permutation_in _ (Permutation_sym (OrderFacts.sort_perm _))) in H.
    apply filter_In in H as [H1 H2]. split; [assumption |].
    apply includes_false. now apply negb_true_iff.
  - intros [H1 H2]. apply (Permutation_in _ (OrderFacts.sort_perm _)).
    apply filter_In. split; [assumption |].
    apply negb_true_iff. now apply includes_false.
Qed.

Lemma main_NoDup : NoDup main.
Proof.
  rewrite main_as_filter. apply NoDup_filter.
  repeat constructor; simpl; intuition discriminate.
Qed.

(** C10: the two published lists split the supported extensions.  The main
    list is what [img], [iso], [zip] have in common with
    [getAllExtensions()], in that order; the extra list is the other
    extensions, sorted ascending; no extension is in both, and an extension
    is in one of them exactly when it is in [getAllExtensions()], each as
    many times when that list has no repeats. *)
Theorem extension_lists_partition :
  main = filter (fun x => Lodash.includes x getAllExtensions) ["img"; "iso"; "zip"] /\
  ascending extra /\
  Permutation extra
    (filter (fun x => negb (Lodash.includes x main)) getAllExtensions) /\
  (forall x, ~ (In x main /\ In x extra)) /\
  (forall x, In x main \/ In x extra <-> In x getAllExtensions) /\
  (NoDup getAllExtensions -> Permutation (main ++ extra) getAllExtensions).
Proof.
  split; [apply main_as_filter |].
  split; [apply OrderFacts.sort_ascending |].
  split; [symmetry; apply OrderFacts.sort_perm |].
  split; [intros x [H1 H2]; apply in_extra in H2; tauto |].
  assert (Hunion : forall x, In x main \/ In x extra <-> In x getAllExtensions).
  { intros x. rewrite in_extra, in_main.
    destruct (in_dec string_dec x ["img"; "iso"; "zip"]); tauto. }
  split; [exact Hunion |].
  intros Hnd. apply NoDup_Permutation; [| assumption |].
  - apply NoDup_app; [apply main_NoDup | |].
    + eapply Permutation_NoDup; [apply OrderFacts.sort_perm |].
      now apply NoDup_filter.
    + intros x H1 H2. apply in_extra in H2. tauto.
  - intros x. rewrite in_app_iff. apply Hunion.
Qed.

End ExtensionFacts.

(** ** Concrete runs *)

Example semver_compare_newer :
  Semver.compare (JStr "1.3.0") (JStr "v1.2.0") = Normal 1%Z /\
  Semver.compare (JStr "v1.2.0") (JStr "v1.10.0") = Normal (-1)%Z /\
  Semver.compare (JStr "1.2.0") (JStr "v1.2.0") = Normal 0%Z.
Proof. repeat split. Qed.

Example mcuImages_two :
  mcuImages ["notes.txt"; "mcu_v1.0.0.img.zip"; "mcu_v1.2.0.img.zip";
             "mcu_v1.2.img.zip"]
  = ["mcu_v1.2.0.img.zip"; "mcu_v1.0.0.img.zip"].
Proof. reflexivity. Qed.

(** The order of the sort is the order of strings, not of versions. *)
Example mcuImages_ten :
  mcuImages ["mcu_v1.10.0.img.zip"; "mcu_v1.9.0.img.zip"]
  = ["mcu_v1.9.0.img.zip"; "mcu_v1.10.0.img.zip"].
Proof. reflexivity. Qed.

Lemma numeric_digit (c : ascii) : is_digit c = true -> numeric (String c "").
Proof.
  intros H. split; [simpl; rewrite H; reflexivity | discriminate].
Defined.

Lemma firmware_name_100 : is_firmware_name "mcu_v1.0.0.img.zip".
Proof.
  exists "1"%string, "0"%string, "0"%string.
  repeat split; try apply numeric_digit; try reflexivity; discriminate.
Defined.

(** C1, at the failing input: the machine is offline and the downloads
    directory is empty.  The check started by [init] leaves the controller
    as it was; the check with [allowDownload] true that follows leaves
    [downloading] true, and nothing was sent. *)
Lemma remote_none_flag_raised_witness :
  let started :=
    run Semver.compare home posix_join [Checked false None (Normal [])] initial in
  let asked :=
    run Semver.compare home posix_join [Checked true None (Normal [])] started in
  has_assets None = false /\
  mcuImages [] = [] /\
  downloading (ctrl started) = false /\
  downloading (ctrl asked) = true /\
  download_requests (log asked) = [].
Proof.
  split; [reflexivity |]. split; [reflexivity |]. split; [reflexivity |].
  exact (remote_none_flag_raised_without_request Semver.compare home
           posix_join None []
           (run Semver.compare home posix_join
              [Checked false None (Normal [])] initial)
           eq_refl eq_refl).
Defined.

(** C3, as stated, fails: with release 1.3.0 published and 1.2.0 on disk,
    the check started by [init] sends nothing, a first
    [checkForNewImage(true)] raises [downloading] and sends a request, and a
    second one, before any reply of the download, sends another. *)
Lemma second_check_sends_again :
  let json :=
    Some (mkRelease (JStr "1.3.0")
            (Some [mkAsset (JStr "https://example.org/mcu_v1.3.0.img.zip")])) in
  let dirs := Normal ["mcu_v1.2.0.img.zip"] in
  let w0 := run Semver.compare home posix_join [Checked false json dirs] initial in
  let w1 := run Semver.compare home posix_join [Checked true json dirs] w0 in
  let w2 := run Semver.compare home posix_join [Checked true json dirs] w1 in
  download_requests (log w0) = [] /\
  downloading (ctrl w1) = true /\
  length (download_requests (log w1)) = 1 /\
  length (download_requests (log w2)) = 2.
Proof. repeat split. Qed.

(** C5, as stated, fails: with [mcu_v1.2.0.img.zip] the only firmware file,
    the version recorded is [v1.2.0], not [1.2.0]. *)
Lemma currentVersion_not_bare_version :
  let w :=
    exec (checkForNewImage Semver.compare home posix_join false None
            (Normal ["mcu_v1.2.0.img.zip"])) initial in
  mcuImages ["mcu_v1.2.0.img.zip"] = [firmware_name "1" "2" "0"] /\
  currentVersion (ctrl w) = JStr "v1.2.0" /\
  currentVersion (ctrl w) <> JStr (dotted "1" "2" "0").
Proof. repeat split. discriminate. Qed.

Lemma currentVersion_keeps_v_prefix_witness :
  numeric "1" /\ numeric "2" /\ numeric "0" /\
  mcuImages ["mcu_v1.2.0.img.zip"; "readme.md"] = [firmware_name "1" "2" "0"] /\
  currentVersion
    (ctrl (exec (checkForNewImage Semver.compare home posix_join false None
                   (Normal ["mcu_v1.2.0.img.zip"; "readme.md"])) initial))
  = JStr "v1.2.0".
Proof.
  assert (N1 : numeric "1") by (apply numeric_digit; reflexivity).
  assert (N2 : numeric "2") by (apply numeric_digit; reflexivity).
  assert (N0 : numeric "0") by (apply numeric_digit; reflexivity).
  split; [exact N1 |]. split; [exact N2 |]. split; [exact N0 |].
  split; [reflexivity |].
  exact (currentVersion_keeps_v_prefix Semver.compare home posix_join false
           None ["mcu_v1.2.0.img.zip"; "readme.md"] "1" "2" "0" []
           initial N1 N2 N0 eq_refl).
Defined.


Lemma sample_windows_warning_nonempty : sample_windows_warning <> ""%string.
Proof. discriminate. Defined.

Lemma sample_partition_warning_nonempty : sample_partition_warning <> ""%string.
Proof. discriminate. Defined.

(** C8, on an image for which both warnings apply: the Windows one is
    shown, alone. *)
Lemma selectImage_check_order_witness :
  sample_isSupportedImage (path windows_image) = true /\
  sample_looksLikeWindowsImage (path windows_image) = true /\
  hasMBR windows_image = false /\
  displayed
    (log (exec (selectImage sample_isSupportedImage sample_looksLikeWindowsImage
                  sample_invalidImage sample_windows_warning
                  sample_partition_warning windows_image (Normal false))
            earlier_world))
  = [Display "Change" "Continue" sample_windows_warning].
Proof.
  split; [reflexivity |]. split; [reflexivity |]. split; [reflexivity |].
  exact (proj1 (selectImage_check_order sample_isSupportedImage
                  sample_looksLikeWindowsImage sample_invalidImage
                  sample_windows_warning sample_partition_warning
                  windows_image (Normal false) earlier_world
                  sample_windows_warning_nonempty
                  sample_partition_warning_nonempty)).
Defined.

(** C9, at the failing input: the Windows image, with an earlier selection
    in the store.  Answered true, the earlier selection stays and the picker
    is not opened again: after the event of the re-selection comes the
    report of the [TypeError].  Answered false, the image replaces the
    earlier selection. *)
Lemma selectImage_confirmation_outcome_witness :
  log (exec (selectImage sample_isSupportedImage sample_looksLikeWindowsImage
               sample_invalidImage sample_windows_warning
               sample_partition_warning windows_image (Normal true))
         earlier_world) =
  [LogEvent "Possibly Windows image" (OfImage windows_image);
   Display "Change" "Continue" sample_windows_warning;
   LogEvent "Reselect image" (PreviousImage (selection earlier_world));
   Report "TypeError: this.openImageSelector is not a function"] /\
  selection
    (exec (selectImage sample_isSupportedImage sample_looksLikeWindowsImage
             sample_invalidImage sample_windows_warning
             sample_partition_warning windows_image (Normal true))
       earlier_world) = selection earlier_world /\
  selection
    (exec (selectImage sample_isSupportedImage sample_looksLikeWindowsImage
             sample_invalidImage sample_windows_warning
             sample_partition_warning windows_image (Normal false))
       earlier_world) = Some windows_image.
Proof.
  split; [reflexivity |].
  pose proof (selectImage_confirmation_outcome sample_isSupportedImage
                sample_looksLikeWindowsImage sample_invalidImage
                sample_windows_warning sample_partition_warning
                windows_image earlier_world
                sample_windows_warning_nonempty
                sample_partition_warning_nonempty
                eq_refl (or_introl eq_refl)) as H.
  exact (conj (proj1 (proj1 H)) (proj1 (proj2 H))).
Defined.

(** C10, on a registry of six extensions. *)
Example extension_lists_sample :
  mainSupportedExtensions ["zip"; "gz"; "bz2"; "img"; "dmg"; "iso"]
  = ["img"; "iso"; "zip"] /\
  extraSupportedExtensions ["zip"; "gz"; "bz2"; "img"; "dmg"; "iso"]
  = ["bz2"; "dmg"; "gz"].
Proof. split; reflexivity. Qed.

(** * Further properties of the controller *)

(** ** The listing of the firmware images *)

Module ListingFacts.

Import StrFacts OrderFacts FirmwareFacts.

Lemma ascending_strongly (l : list string) :
  ascending l -> StronglySorted (fun a b => String.leb a b = true) l.
Proof.
  apply Sorted_StronglySorted. intros a b c. apply leb_trans.
Qed.

(** The order of the sort leaves one ascending arrangement of a list. *)
Lemma ascending_perm_eq (l1 : list string) :
  forall l2, ascending l1 -> ascending l2 -> Permutation l1 l2 -> l1 = l2.
Proof.
  induction l1 as [|a l1 IH]; intros l2 H1 H2 P.
  - apply Permutation_nil in P. now subst.
  - destruct l2 as [|b l2];
      [apply Permutation_sym, Permutation_nil in P; discriminate |].
    assert (E : a = b).
    { pose proof (ascending_strongly _ H1) as S1.
      pose proof (ascending_strongly _ H2) as S2.
      inversion S1 as [|? ? _ F1]; inversion S2 as [|? ? _ F2]; subst.
      rewrite Forall_forall in F1, F2.
      assert (Hb : In b (a :: l1))
        by (eapply Permutation_in; [symmetry; exact P | now left]).
      assert (Ha : In a (b :: l2))
        by (eapply Permutation_in; [exact P | now left]).
      destruct Hb as [Hb|Hb]; [assumption |].
      destruct Ha as [Ha|Ha]; [now symmetry |].
      apply String.leb_antisym; auto. }
    subst b. f_equal. apply IH.
    + now inversion H1.
    + now inversion H2.
    + eapply Permutation_cons_inv. exact P.
Qed.

Lemma sort_permutation_invariant (l1 l2 : list string) :
  Permutation l1 l2 -> Str.sort l1 = Str.sort l2.
Proof.
  intros P. apply ascending_perm_eq; try apply sort_ascending.
  rewrite <- (sort_perm l1), <- (sort_perm l2). exact P.
Qed.

Lemma filter_permutation (f : string -> bool) (l1 l2 : list string) :
  Permutation l1 l2 -> Permutation (filter f l1) (filter f l2).
Proof.
  induction 1; simpl.
  - constructor.
  - destruct (f x); [now constructor | assumption].
  - destruct (f x), (f y); try reflexivity. apply perm_swap.
  - etransitivity; eassumption.
Qed.

(** X1: the images found do not depend on the order in which the directory
    is listed. *)
Theorem mcuImages_order_independent (dirs1 dirs2 : list string) :
  Permutation dirs1 dirs2 -> mcuImages dirs1 = mcuImages dirs2.
Proof.
  intros P. unfold mcuImages. f_equal.
  apply sort_permutation_invariant. now apply filter_permutation.
Qed.

(** X2: [mcuImages] holds the entries kept by the filter, each as often as
    the directory lists it, from the greatest name down. *)
Theorem mcuImages_descending (dirs : list string) :
  Permutation (mcuImages dirs) (filter is_mcu_image dirs) /\
  ascending (rev (mcuImages dirs)) /\
  Forall is_firmware_name (mcuImages dirs).
Proof.
  unfold mcuImages. split; [| split].
  - rewrite <- Permutation_rev. symmetry. apply sort_perm.
  - rewrite rev_involutive. apply sort_ascending.
  - apply Forall_forall. intros f Hf. apply is_mcu_image_spec.
    apply in_rev in Hf.
    apply (Permutation_in _ (Permutation_sym (sort_perm _))) in Hf.
    now apply filter_In in Hf.
Qed.

Lemma dotted_append_extension (a b c : string) :
  ("mcu_" ++ ("v" ++ dotted a b c) ++ ".img.zip")%string = firmware_name a b c.
Proof. reflexivity. Qed.

(** X3: the version cut out of a firmware file name gives the name back
    when [mcu_] and [.img.zip] are put around it again; two firmware files
    with one recorded version are one file. *)
Theorem latestDownload_round_trip (file : string) :
  is_firmware_name file ->
  ("mcu_" ++ latestDownload file ++ ".img.zip")%string = file /\
  forall other, is_firmware_name other ->
                latestDownload other = latestDownload file -> other = file.
Proof.
  intros (a & b & c & Ha & Hb & Hc & ->).
  rewrite latestDownload_firmware_name by assumption. split; [reflexivity |].
  intros other (a' & b' & c' & Ha' & Hb' & Hc' & ->).
  rewrite latestDownload_firmware_name by assumption.
  intros E. rewrite <- !dotted_append_extension. now rewrite E.
Qed.

Lemma latestDownload_nonempty (file : string) :
  is_firmware_name file -> truthy (JStr (latestDownload file)) = true.
Proof.
  intros (a & b & c & Ha & Hb & Hc & ->).
  now rewrite latestDownload_firmware_name.
Qed.

End ListingFacts.

(** ** The callback of the check, case by case *)

Section CallbackFacts.

Variable semver_compare : value -> value -> completion Z.
Variable downloads : string.
Variable path_join : string -> string -> string.

Local Notation "'check'" := (checkForNewImage semver_compare downloads path_join).
Local Notation "'runs'" := (run semver_compare downloads path_join).

(** X4: when the downloads directory cannot be read, the callback logs the
    error and stops there: nothing is sent or selected, and the flag, the
    recorded local version and the stored selection stay as they were. *)
Theorem check_unreadable_directory (allowDownload : bool)
    (json : option release) (e : string) (w : world) :
  log (exec (check allowDownload json (Throw e)) w) =
  log w ++ [ConsoleError "Select image error"] /\
  downloading (ctrl (exec (check allowDownload json (Throw e)) w)) =
  downloading (ctrl w) /\
  currentVersion (ctrl (exec (check allowDownload json (Throw e)) w)) =
  currentVersion (ctrl w) /\
  selection (exec (check allowDownload json (Throw e)) w) = selection w.
Proof. split_cases; repeat split. Qed.

(** X5: the available version is the tag of the reply when the reply has an
    asset, and is left as it was, however old, when it has none. *)
Theorem check_availableVersion (allowDownload : bool) (json : option release)
    (dirs : completion (list string)) (w : world) :
  (forall r a rest,
      json = Some r -> assets r = Some (a :: rest) ->
      availableVersion (ctrl (exec (check allowDownload json dirs) w)) =
      tag_name r) /\
  (has_assets json = false ->
   availableVersion (ctrl (exec (check allowDownload json dirs) w)) =
   availableVersion (ctrl w)).
Proof.
  split.
  - intros r a rest -> Ha. destruct r as [tag l]. simpl in Ha. subst l.
    split_cases; reflexivity.
  - intros H. revert H. split_cases; intros H; try discriminate H; reflexivity.
Qed.

(** X6: a callback that sends a download request was allowed to, had a
    reply with an asset, sends the address of the first asset on the
    ['download-mcu'] channel, and leaves the flag raised. *)
Theorem check_request_shape (allowDownload : bool) (json : option release)
    (dirs : completion (list string)) (w : world) :
  download_requests (log (exec (check allowDownload json dirs) w)) =
  download_requests (log w) \/
  (allowDownload = true /\
   downloading (ctrl (exec (check allowDownload json dirs) w)) = true /\
   exists r a rest,
     json = Some r /\ assets r = Some (a :: rest) /\
     download_requests (log (exec (check allowDownload json dirs) w)) =
     download_requests (log w) ++ [IpcSend "download-mcu" (browser_download_url a)]).
Proof.
  split_cases; rewrite ?download_requests_app, ?app_nil_r; simpl;
    first [ left; reflexivity
          | right; split; [reflexivity |]; split; [reflexivity |];
            do 3 eexists; split; [reflexivity |]; split; reflexivity ].
Qed.

(** X7: with no firmware image on disk, an allowed callback that has a
    release downloads it without comparing versions: the one effect is the
    request for the first asset, the flag is raised, and the recorded local
    version stays as it was. *)
Theorem check_empty_directory_downloads (r : release) (a : asset)
    (rest : list asset) (dirs : list string) (w : world) :
  assets r = Some (a :: rest) ->
  mcuImages dirs = [] ->
  log (exec (check true (Some r) (Normal dirs)) w) =
  log w ++ [IpcSend "download-mcu" (browser_download_url a)] /\
  downloading (ctrl (exec (check true (Some r) (Normal dirs)) w)) = true /\
  currentVersion (ctrl (exec (check true (Some r) (Normal dirs)) w)) =
  currentVersion (ctrl w).
Proof.
  intros Ha Hd. destruct r as [tag l]. simpl in Ha. subst l.
  open_callback. rewrite Hd. simpl. repeat split.
Qed.

(** X8: when the release is not newer than the newest firmware image on
    disk, the callback selects that image and does nothing else, allowed to
    download or not. *)
Theorem check_up_to_date (allowDownload : bool) (r : release) (a : asset)
    (rest : list asset) (dirs : list string) (newest : string)
    (others : list string) (z : Z) (w : world) :
  assets r = Some (a :: rest) ->
  mcuImages dirs = newest :: others ->
  semver_compare (tag_name r) (JStr (latestDownload newest)) = Normal z ->
  (z <= 0)%Z ->
  log (exec (check allowDownload (Some r) (Normal dirs)) w) =
  log w ++ [SelectImageByPath (path_join downloads newest)] /\
  downloading (ctrl (exec (check allowDownload (Some r) (Normal dirs)) w)) =
  downloading (ctrl w).
Proof.
  intros Ha Hd Hz Hle. destruct r as [tag l]. simpl in *. subst l.
  apply Z.ltb_ge in Hle.
  open_callback. rewrite Hd. unfold updateAvailable. simpl. rewrite Hz, Hle.
  destruct (truthy tag && negb (latestDownload newest =? ""))%bool; simpl;
    repeat split.
Qed.

(** X9: when the release is newer than the newest firmware image on disk,
    an allowed callback selects that image, then requests the first asset
    and raises the flag. *)
Theorem check_newer_downloads (r : release) (a : asset)
    (rest : list asset) (dirs : list string) (newest : string)
    (others : list string) (z : Z) (w : world) :
  assets r = Some (a :: rest) ->
  truthy (tag_name r) = true ->
  mcuImages dirs = newest :: others ->
  semver_compare (tag_name r) (JStr (latestDownload newest)) = Normal z ->
  (0 < z)%Z ->
  log (exec (check true (Some r) (Normal dirs)) w) =
  log w ++ [SelectImageByPath (path_join downloads newest);
            IpcSend "download-mcu" (browser_download_url a)] /\
  downloading (ctrl (exec (check true (Some r) (Normal dirs)) w)) = true.
Proof.
  intros Ha Ht Hd Hz Hpos. destruct r as [tag l]. simpl in *. subst l.
  apply Z.ltb_lt in Hpos.
  assert (Hn : truthy (JStr (latestDownload newest)) = true).
  { apply ListingFacts.latestDownload_nonempty.
    apply FirmwareFacts.is_mcu_image_spec.
    destruct (FirmwareFacts.mcuImages_head _ _ _ Hd) as [Hin _].
    now apply filter_In in Hin. }
  simpl in Hn.
  open_callback. rewrite Hd. unfold updateAvailable. simpl.
  rewrite Ht, Hn, Hz, Hpos. simpl. rewrite <- app_assoc. repeat split.
Qed.

(** X10: when [semver.compare] throws on the tag of the release, the
    callback has recorded the local version and stops: the error is logged,
    the newest image is not selected, nothing is sent and the flag stays as
    it was. *)
Theorem check_compare_throws (allowDownload : bool) (r : release) (a : asset)
    (rest : list asset) (dirs : list string) (newest : string)
    (others : list string) (e : string) (w : world) :
  assets r = Some (a :: rest) ->
  truthy (tag_name r) = true ->
  mcuImages dirs = newest :: others ->
  semver_compare (tag_name r) (JStr (latestDownload newest)) = Throw e ->
  log (exec (check allowDownload (Some r) (Normal dirs)) w) =
  log w ++ [ConsoleError "Select image error"] /\
  currentVersion (ctrl (exec (check allowDownload (Some r) (Normal dirs)) w)) =
  JStr (latestDownload newest) /\
  downloading (ctrl (exec (check allowDownload (Some r) (Normal dirs)) w)) =
  downloading (ctrl w).
Proof.
  intros Ha Ht Hd Hz. destruct r as [tag l]. simpl in *. subst l.
  assert (Hn : truthy (JStr (latestDownload newest)) = true).
  { apply ListingFacts.latestDownload_nonempty.
    apply FirmwareFacts.is_mcu_image_spec.
    destruct (FirmwareFacts.mcuImages_head _ _ _ Hd) as [Hin _].
    now apply filter_In in Hin. }
  simpl in Hn.
  open_callback. rewrite Hd. unfold updateAvailable. simpl.
  rewrite Ht, Hn, Hz. simpl. repeat split.
Qed.

(** The fields the callback leaves, read off the fields it finds. *)
Lemma ctrl_after_check (allowDownload : bool) (json : option release)
    (dirs : completion (list string)) (w : world) :
  ctrl (exec (check allowDownload json dirs) w) =
  let c1 :=
    match json with
    | Some r => if has_assets json
                then set_availableVersion (tag_name r) (ctrl w) else ctrl w
    | None => ctrl w
    end in
  match dirs with
  | Throw _ => c1
  | Normal l =>
      match mcuImages l with
      | [] => if allowDownload then set_downloading true c1 else c1
      | newest :: _ =>
          let c2 := set_currentVersion (JStr (latestDownload newest)) c1 in
          match updateAvailable semver_compare c2 with
          | Normal true => if allowDownload then set_downloading true c2 else c2
          | _ => c2
          end
      end
  end.
Proof. split_cases; reflexivity. Qed.

(** X11: the callback settles the fields of the controller: run again on
    the same reply and the same listing, it leaves them as the first run
    did. *)
Theorem check_settles (allowDownload : bool) (json : option release)
    (dirs : completion (list string)) (w : world) :
  ctrl (exec (check allowDownload json dirs)
          (exec (check allowDownload json dirs) w)) =
  ctrl (exec (check allowDownload json dirs) w).
Proof.
  rewrite (ctrl_after_check _ _ _ (exec _ w)), ctrl_after_check.
  destruct (ctrl w) as [d av cv]. unfold has_assets, updateAvailable.
  destruct json as [[tag [[|a l]|]]|], dirs as [dl|e]; simpl;
    try reflexivity;
    destruct (mcuImages dl) as [|newest others]; simpl;
    try (destruct allowDownload; reflexivity);
    repeat (match goal with
            | E : ?t = _ |- context [?t] => rewrite E
            | |- context [truthy ?v && ?b] =>
                is_var v; destruct (truthy v && b)%bool eqn:?
            | |- context [semver_compare ?x ?y] =>
                is_var x; destruct (semver_compare x y) as [z|] eqn:?
            | |- context [(0 <? ?z)%Z] => is_var z; destruct (0 <? z)%Z eqn:?
            | |- context [if allowDownload then _ else _] => destruct allowDownload
            end; simpl); reflexivity.
Qed.

Lemma check_flag_default (json : option release)
    (dirs : completion (list string)) (w : world) :
  downloading (ctrl (exec (check false json dirs) w)) = downloading (ctrl w).
Proof. split_cases; reflexivity. Qed.

Lemma check_flag_stays_raised (allowDownload : bool) (json : option release)
    (dirs : completion (list string)) (w : world) :
  downloading (ctrl w) = true ->
  downloading (ctrl (exec (check allowDownload json dirs) w)) = true.
Proof. split_cases; intros H; simpl; auto. Qed.

(** X12: the callback never lowers the flag, and with [allowDownload] false
    it leaves the flag as it was. *)
Theorem check_keeps_flag (allowDownload : bool) (json : option release)
    (dirs : completion (list string)) (w : world) :
  downloading (ctrl (exec (check false json dirs) w)) = downloading (ctrl w) /\
  (downloading (ctrl w) = true ->
   downloading (ctrl (exec (check allowDownload json dirs) w)) = true).
Proof.
  split; [apply check_flag_default | apply check_flag_stays_raised].
Qed.

(** The recorded local version changes only when a firmware image is
    found. *)
Lemma check_currentVersion_kept (allowDownload : bool) (json : option release)
    (dirs : completion (list string)) (w : world) :
  match dirs with
  | Normal l => mcuImages l = []
  | Throw _ => True
  end ->
  currentVersion (ctrl (exec (check allowDownload json dirs) w)) =
  currentVersion (ctrl w).
Proof.
  destruct dirs as [l|e]; intros H.
  - open_callback. rewrite H. split_cases; reflexivity.
  - split_cases; reflexivity.
Qed.

Lemma reply_sends_nothing (arg : download_reply) (w : world) :
  download_requests (log (exec (on_download_mcu arg) w)) =
  download_requests (log w).
Proof.
  unfold_js. destruct (is_nullish (error arg)); simpl;
    rewrite ?download_requests_app, ?app_nil_r; reflexivity.
Qed.

(** X13: a reply of the main process clears the flag, selects the
    downloaded image only when it carries no error, and the check that
    follows it, made with [allowDownload] false, sends no request and
    leaves the flag down: a download does not start another. *)
Theorem download_reply_no_loop (arg : download_reply) (json : option release)
    (dirs : completion (list string)) (w : world) :
  selected_paths (log (exec (on_download_mcu arg) w)) =
  selected_paths (log w) ++
    (if is_nullish (error arg) then [imagePath arg] else []) /\
  downloading (ctrl (runs [Downloaded arg; Checked false json dirs] w)) = false /\
  download_requests (log (runs [Downloaded arg; Checked false json dirs] w)) =
  download_requests (log w).
Proof.
  split; [| split].
  - unfold_js. unfold selected_paths.
    destruct (is_nullish (error arg)); simpl;
      rewrite ?flat_map_app, ?app_nil_r; reflexivity.
  - simpl. rewrite check_flag_default. apply download_reply_clears_flag.
  - simpl. rewrite check_default_sends_nothing. apply reply_sends_nothing.
Qed.

Lemma unprompted_step (e : event) (w : world) :
  unprompted e = true ->
  downloading (ctrl w) = false ->
  downloading (ctrl (exec (step semver_compare downloads path_join e) w)) = false /\
  download_requests (log (exec (step semver_compare downloads path_join e) w)) =
  download_requests (log w).
Proof.
  destruct e as [allowDownload json dirs|arg]; simpl; intros He Hw.
  - apply negb_true_iff in He. subst allowDownload. split.
    + now rewrite check_flag_default.
    + apply check_default_sends_nothing.
  - split; [apply download_reply_clears_flag | apply reply_sends_nothing].
Qed.

Lemma unprompted_run (events : list event) :
  forall w,
    forallb unprompted events = true ->
    downloading (ctrl w) = false ->
    downloading (ctrl (runs events w)) = false /\
    download_requests (log (runs events w)) = download_requests (log w).
Proof.
  induction events as [|e events IH]; intros w He Hw; simpl.
  - now split.
  - simpl in He. apply andb_true_iff in He as [He Hes].
    destruct (unprompted_step e w He Hw) as [H1 H2].
    destruct (IH _ Hes H1) as [H3 H4]. split; [assumption | congruence].
Qed.

(** X14: left to itself, with the check of [init], the replies of the main
    process and the checks that follow them, the controller never raises the
    flag and never sends a download request. *)
Theorem unprompted_run_never_downloads (events : list event) :
  forallb unprompted events = true ->
  downloading (ctrl (runs events initial)) = false /\
  download_requests (log (runs events initial)) = [].
Proof.
  intros H. now apply (unprompted_run events initial).
Qed.

(** X15: over any run, the download requests sent are at most as many as
    the callbacks of [checkForNewImage(true)]. *)
Theorem requests_bounded_by_asked (events : list event) :
  forall w,
    length (download_requests (log (runs events w))) <=
    length (download_requests (log w)) + asked events.
Proof.
  unfold asked.
  induction events as [|e events IH]; intros w; simpl; [lia |].
  specialize (IH (exec (step semver_compare downloads path_join e) w)).
  destruct e as [[|] json dirs|arg]; simpl in *.
  - pose proof (check_sends_at_most_one semver_compare downloads path_join
                  true json dirs w). lia.
  - rewrite check_default_sends_nothing in IH. lia.
  - rewrite reply_sends_nothing in IH. lia.
Qed.

Lemma recorded_version_step (e : event) (w : world) :
  recorded_version (currentVersion (ctrl w)) ->
  recorded_version
    (currentVersion (ctrl (exec (step semver_compare downloads path_join e) w))).
Proof.
  intros Hw. destruct e as [allowDownload json dirs|arg]; simpl.
  - destruct dirs as [l|err].
    + destruct (mcuImages l) as [|newest others] eqn:E.
      * now rewrite check_currentVersion_kept.
      * rewrite (check_currentVersion _ _ _ _ _ _ _ _ _ E).
        destruct (FirmwareFacts.mcuImages_head _ _ _ E) as [Hin _].
        apply filter_In in Hin as [_ Hin].
        apply FirmwareFacts.is_mcu_image_spec in Hin
          as (a & b & c & Ha & Hb & Hc & ->).
        right. exists a, b, c.
        split; [assumption |]. split; [assumption |]. split; [assumption |].
        now rewrite FirmwareFacts.latestDownload_firmware_name.
    + now rewrite check_currentVersion_kept.
  - unfold_js. destruct (is_nullish (error arg)); exact Hw.
Qed.

(** X16: at every point of every run, the recorded local version is [null]
    or a [v] followed by three dotted numeric components. *)
Theorem recorded_version_invariant (events : list event) :
  recorded_version (currentVersion (ctrl (runs events initial))).
Proof.
  assert (H : forall w, recorded_version (currentVersion (ctrl w)) ->
                        recorded_version (currentVersion (ctrl (runs events w)))).
  { induction events as [|e events IH]; intros w Hw; simpl; [assumption |].
    apply IH. now apply recorded_version_step. }
  apply H. now left.
Qed.

Lemma check_availableVersion_tag (allowDownload : bool) (r : release)
    (a : asset) (rest : list asset) (dirs : completion (list string))
    (w : world) :
  assets r = Some (a :: rest) ->
  availableVersion (ctrl (exec (check allowDownload (Some r) dirs) w)) =
  tag_name r.
Proof.
  intros Ha. destruct r as [tag l]. simpl in Ha. subst l.
  split_cases; reflexivity.
Qed.

(** X17: after a callback with [allowDownload] false on a release with an
    asset whose tag is the string [s], a controller that was not
    downloading prompts with ["Download "] followed by [s]. *)
Theorem prompt_after_check (r : release) (a : asset) (rest : list asset)
    (s : string) (dirs : completion (list string)) (w : world) :
  assets r = Some (a :: rest) ->
  tag_name r = JStr s ->
  downloading (ctrl w) = false ->
  downloadPrompt (ctrl (exec (check false (Some r) dirs) w)) =
  ("Download " ++ s)%string.
Proof.
  intros Ha Ht Hw. unfold downloadPrompt.
  rewrite check_flag_default, Hw.
  rewrite (check_availableVersion_tag false r a rest dirs w Ha).
  now rewrite Ht.
Qed.

End CallbackFacts.

(** ** Selecting, opening by path, reading the selection *)

Section SelectionOutcomes.

Variable isSupportedImage : string -> bool.
Variable looksLikeWindowsImage : string -> bool.
Variable invalidImage_message : image -> string.
Variable looksLikeWindowsImage_message : string.
Variable missingPartitionTable_message : string.
Variable basename : string -> string.
Variable openImage_message : string -> string -> string.

Local Notation "'select'" :=
  (selectImage isSupportedImage looksLikeWindowsImage invalidImage_message
     looksLikeWindowsImage_message missingPartitionTable_message).

Local Notation "'open_path'" :=
  (selectImageByPath isSupportedImage looksLikeWindowsImage invalidImage_message
     looksLikeWindowsImage_message missingPartitionTable_message basename
     openImage_message).

Ltac open_select :=
  unfold exec, selectImage, confirm, commit, reselectImage,
    bind, ret, lift, throw, try_catch, emit, set_selection; simpl.

Lemma nonempty_truthy (s : string) : s <> ""%string -> negb (s =? "")%string = true.
Proof. intros H. apply negb_true_iff. now apply String.eqb_neq. Qed.

(** The image is committed when it is supported and either needs no
    confirmation or had it settled to false. *)
Lemma selectImage_selection (image : image) (answer : completion bool)
    (w : world) :
  looksLikeWindowsImage_message <> ""%string ->
  missingPartitionTable_message <> ""%string ->
  selection (exec (select image answer) w) =
  (if isSupportedImage (path image) &&
      (negb (looksLikeWindowsImage (path image) || negb (hasMBR image))
       || declined answer)
   then Some image else selection w) /\
  filter is_setImage (log (exec (select image answer) w)) =
  filter is_setImage (log w) ++
    (if isSupportedImage (path image) &&
        (negb (looksLikeWindowsImage (path image) || negb (hasMBR image))
         || declined answer)
     then [SetImage image] else []).
Proof.
  intros HW HM. apply nonempty_truthy in HW, HM. open_select.
  destruct (isSupportedImage (path image)); simpl.
  - destruct (looksLikeWindowsImage (path image)); simpl;
      [rewrite HW | destruct (hasMBR image); simpl; [| rewrite HM]];
      simpl; destruct answer as [[|]|]; simpl;
      rewrite ?filter_app; simpl; rewrite ?app_nil_r; split; reflexivity.
  - rewrite !filter_app. simpl. rewrite !app_nil_r. split; reflexivity.
Qed.

(** X18: whether [selectImage] commits the image, in one table: it calls
    [setImage], once, and the image becomes the selection, exactly when the
    image is supported and either triggers no warning or the confirmation
    settles to false; in every other case the selection is left as it
    was. *)
Theorem selectImage_outcome (image : image) (answer : completion bool)
    (w : world) :
  looksLikeWindowsImage_message <> ""%string ->
  missingPartitionTable_message <> ""%string ->
  selection (exec (select image answer) w) =
  (if isSupportedImage (path image) &&
      (negb (looksLikeWindowsImage (path image) || negb (hasMBR image))
       || declined answer)
   then Some image else selection w) /\
  filter is_setImage (log (exec (select image answer) w)) =
  filter is_setImage (log w) ++
    (if isSupportedImage (path image) &&
        (negb (looksLikeWindowsImage (path image) || negb (hasMBR image))
         || declined answer)
     then [SetImage image] else []).
Proof. apply selectImage_selection. Qed.

(** X19: a supported image with a partition table that does not look like
    a Windows image is committed at once: no warning is logged or shown,
    whatever the modal would answer, and the event logged carries the image
    with [logo] and [bmap] turned into booleans. *)
Theorem selectImage_accepted (image : image) (answer : completion bool)
    (w : world) :
  isSupportedImage (path image) = true ->
  looksLikeWindowsImage (path image) = false ->
  hasMBR image = true ->
  selection (exec (select image answer) w) = Some image /\
  log (exec (select image answer) w) =
  log w ++
    [SetImage image;
     LogEvent "Select image"
       (OfImage (mkImage (path image) true
                   (JBool (truthy (logo image))) (JBool (truthy (bmap image)))))].
Proof.
  intros Hs Hw Hm. open_select. rewrite Hs, Hw, Hm. simpl.
  rewrite <- app_assoc. split; reflexivity.
Qed.

(** X20: when the promise of the confirmation is rejected, the image is not
    committed, the selection stays as it was, re-selection is not started,
    and the error goes to the exception reporter. *)
Theorem selectImage_modal_fails (image : image) (e : string) (w : world) :
  looksLikeWindowsImage_message <> ""%string ->
  missingPartitionTable_message <> ""%string ->
  isSupportedImage (path image) = true ->
  looksLikeWindowsImage (path image) = true \/ hasMBR image = false ->
  selection (exec (select image (Throw e)) w) = selection w /\
  exists warning text,
    log (exec (select image (Throw e)) w) =
    log w ++ [LogEvent warning (OfImage image);
              Display "Change" "Continue" text; Report e].
Proof.
  intros HW HM Hs Ht. apply nonempty_truthy in HW, HM. open_select.
  rewrite Hs. simpl. destruct (looksLikeWindowsImage (path image)); simpl.
  - rewrite HW. simpl. split; [reflexivity |].
    exists "Possibly Windows image"%string, looksLikeWindowsImage_message.
    now rewrite <- !app_assoc.
  - destruct Ht as [Ht|Ht]; [discriminate |]. rewrite Ht. simpl.
    rewrite HM. simpl. split; [reflexivity |].
    exists "Missing partition table"%string, missingPartitionTable_message.
    now rewrite <- !app_assoc.
Qed.

(** X21: the warning is shown only if its text is not empty: were the text
    of the Windows warning empty, an image that looks like a Windows image
    would be logged as such and committed with no confirmation, the check
    of the partition table being skipped too. *)
Theorem selectImage_empty_warning (image : image) (answer : completion bool)
    (w : world) :
  looksLikeWindowsImage_message = ""%string ->
  isSupportedImage (path image) = true ->
  looksLikeWindowsImage (path image) = true ->
  selection (exec (select image answer) w) = Some image /\
  displayed (log (exec (select image answer) w)) = displayed (log w) /\
  exists logged,
    log (exec (select image answer) w) =
    log w ++ [LogEvent "Possibly Windows image" (OfImage image);
              SetImage image; LogEvent "Select image" logged].
Proof.
  intros HW Hs Hl. open_select. rewrite Hs, Hl, HW. simpl.
  split; [reflexivity |]. split.
  - unfold displayed. rewrite !filter_app. simpl. now rewrite !app_nil_r.
  - eexists. rewrite <- !app_assoc. reflexivity.
Qed.

(** X22: [selectImageByPath] on a path whose metadata cannot be extracted
    shows one error, made of the base name of the path and the message of
    the failure, gives the error to the analytics, and goes no further: the
    selection and the controller are untouched.  When the metadata are
    extracted, no exception is logged and the selection stays or becomes
    the extracted image. *)
Theorem selectImageByPath_outcome (imagePath : string)
    (metadata : completion image) (answer : completion bool) (w : world) :
  match metadata with
  | Throw errorMessage =>
      fst (open_path imagePath metadata answer w) =
      mkWorld (ctrl w) (selection w)
        (log w ++ [ShowError "Error opening image"
                     (openImage_message (basename imagePath) errorMessage)]) /\
      snd (open_path imagePath metadata answer w) = [errorMessage]
  | Normal extracted =>
      snd (open_path imagePath metadata answer w) = [] /\
      ctrl (fst (open_path imagePath metadata answer w)) = ctrl w /\
      (selection (fst (open_path imagePath metadata answer w)) = selection w \/
       selection (fst (open_path imagePath metadata answer w)) = Some extracted)
  end.
Proof.
  destruct metadata as [extracted|errorMessage]; simpl.
  - split; [reflexivity |]. open_select.
    destruct (isSupportedImage (path extracted)); simpl; [| now split; [| left]].
    destruct (looksLikeWindowsImage (path extracted)); simpl;
      [destruct (negb (looksLikeWindowsImage_message =? "")%string)
      | destruct (hasMBR extracted); simpl;
        [| destruct (negb (missingPartitionTable_message =? "")%string)]];
      simpl; destruct answer as [[|]|]; simpl;
      (split; [reflexivity |]); first [now left | now right].
  - split; reflexivity.
Qed.

(** X23: after [selectImage], [getImageBasename] gives the base name of the
    path of the image when it was committed, and what it gave before when
    it was not. *)
Theorem getImageBasename_after_select (image : image)
    (answer : completion bool) (w : world) :
  looksLikeWindowsImage_message <> ""%string ->
  missingPartitionTable_message <> ""%string ->
  getImageBasename basename (exec (select image answer) w) =
  if isSupportedImage (path image) &&
     (negb (looksLikeWindowsImage (path image) || negb (hasMBR image))
      || declined answer)
  then basename (path image)
  else getImageBasename basename w.
Proof.
  intros HW HM. unfold getImageBasename, hasImage, getImagePath.
  rewrite (proj1 (selectImage_selection image answer w HW HM)).
  destruct (_ && _)%bool; reflexivity.
Qed.

End SelectionOutcomes.

(** ** The published extension lists, further *)

Module LodashFacts.

Lemma includes_iff (x : string) (l : list string) :
  Lodash.includes x l = true <-> In x l.
Proof.
  unfold Lodash.includes. rewrite existsb_exists. split.
  - intros (y & Hy & E). apply String.eqb_eq in E. now subst.
  - intros H. exists x. split; [assumption | apply String.eqb_refl].
Qed.

Lemma includes_permutation (x : string) (l1 l2 : list string) :
  Permutation l1 l2 -> Lodash.includes x l1 = Lodash.includes x l2.
Proof.
  intros P. apply eq_true_iff_eq. rewrite !includes_iff.
  split; apply Permutation_in; [assumption | now symmetry].
Qed.

Lemma intersection_from_spec (a b : list string) :
  forall seen x,
    In x (Lodash.intersection_from seen a b) <->
    In x a /\ In x b /\ ~ In x seen.
Proof.
  induction a as [|y a IH]; intros seen x; simpl; [tauto |].
  destruct (Lodash.includes y seen) eqn:Es; simpl.
  - apply includes_iff in Es. rewrite IH. split.
    + tauto.
    + intros ([<-|Hx] & Hb & Hs); tauto.
  - assert (Hs : ~ In y seen)
      by (intros H; apply includes_iff in H; congruence).
    destruct (Lodash.includes y b) eqn:Eb; simpl.
    + apply includes_iff in Eb. rewrite IH, in_app_iff. simpl. split.
      * intros [<-|(Hx & Hb & Hn)]; tauto.
      * intros ([<-|Hx] & Hb & Hn); [now left |].
        destruct (string_dec y x) as [->|Hne]; [now left | right].
        repeat split; tauto.
    + assert (Hb : ~ In y b)
        by (intros H; apply includes_iff in H; congruence).
      rewrite IH. split.
      * tauto.
      * intros ([<-|Hx] & Hb' & Hn); tauto.
Qed.

Lemma intersection_from_NoDup (a b : list string) :
  forall seen, NoDup (Lodash.intersection_from seen a b).
Proof.
  induction a as [|y a IH]; intros seen; simpl; [constructor |].
  destruct (negb (Lodash.includes y seen) && Lodash.includes y b); [| apply IH].
  constructor; [| apply IH].
  rewrite intersection_from_spec, in_app_iff. simpl. tauto.
Qed.

(** X24: [_.intersection], as the controller uses it: the result holds the
    values found in both lists, each once. *)
Theorem intersection_spec (a b : list string) :
  (forall x, In x (Lodash.intersection a b) <-> In x a /\ In x b) /\
  NoDup (Lodash.intersection a b).
Proof.
  unfold Lodash.intersection. split.
  - intros x. rewrite intersection_from_spec. simpl. tauto.
  - apply intersection_from_NoDup.
Qed.

End LodashFacts.

Section ExtensionOrder.

Import LodashFacts.

(** X25: the two published lists depend on which extensions the registry
    holds, not on the order in which it gives them. *)
Theorem extension_lists_order_independent (all1 all2 : list string) :
  Permutation all1 all2 ->
  mainSupportedExtensions all1 = mainSupportedExtensions all2 /\
  extraSupportedExtensions all1 = extraSupportedExtensions all2.
Proof.
  intros P.
  assert (Hmain : mainSupportedExtensions all1 = mainSupportedExtensions all2).
  { rewrite !main_as_filter. apply filter_ext.
    intros x. now apply includes_permutation. }
  split; [exact Hmain |].
  unfold extraSupportedExtensions, Lodash.difference. rewrite Hmain.
  apply ListingFacts.sort_permutation_invariant.
  now apply ListingFacts.filter_permutation.
Qed.

(** X26: the main list never repeats an extension, even when the registry
    does, and the extra list never holds [img], [iso] or [zip]. *)
Theorem extension_lists_kinds (all : list string) :
  NoDup (mainSupportedExtensions all) /\
  length (mainSupportedExtensions all) <= 3 /\
  forall x, In x (extraSupportedExtensions all) ->
            ~ In x ["img"; "iso"; "zip"]%string.
Proof.
  split; [apply main_NoDup |]. split.
  - rewrite main_as_filter.
    apply (filter_length_le (fun x => Lodash.includes x all) ["img"; "iso"; "zip"]%string).
  - intros x Hx Hc. apply in_extra in Hx as [Hall Hn].
    apply Hn. apply in_main. now split.
Qed.

End ExtensionOrder.

(** ** Concrete runs, further *)

(** X1, on a directory listed in two orders. *)
Lemma mcuImages_order_independent_witness :
  mcuImages ["mcu_v1.0.0.img.zip"; "notes.txt"; "mcu_v1.2.0.img.zip"] =
  mcuImages ["notes.txt"; "mcu_v1.2.0.img.zip"; "mcu_v1.0.0.img.zip"].
Proof.
  apply ListingFacts.mcuImages_order_independent.
  apply perm_trans with
    (l' := ["notes.txt"; "mcu_v1.0.0.img.zip"; "mcu_v1.2.0.img.zip"]%string).
  - apply perm_swap.
  - apply perm_skip. apply perm_swap.
Defined.

(** X3, on [mcu_v1.0.0.img.zip]. *)
Lemma latestDownload_round_trip_witness :
  latestDownload "mcu_v1.0.0.img.zip" = "v1.0.0"%string /\
  ("mcu_" ++ latestDownload "mcu_v1.0.0.img.zip" ++ ".img.zip")%string =
  "mcu_v1.0.0.img.zip"%string.
Proof.
  split; [reflexivity |].
  exact (proj1 (ListingFacts.latestDownload_round_trip "mcu_v1.0.0.img.zip"
                  firmware_name_100)).
Defined.

(** X7: release 1.3.0 and an empty downloads directory. *)
Lemma check_empty_directory_downloads_witness :
  log (exec (checkForNewImage Semver.compare home posix_join true
               (Some release_130) (Normal ["notes.txt"])) initial) =
  [IpcSend "download-mcu" (JStr "https://example.org/mcu_v1.3.0.img.zip")] /\
  downloading
    (ctrl (exec (checkForNewImage Semver.compare home posix_join true
                   (Some release_130) (Normal ["notes.txt"])) initial)) = true.
Proof.
  pose proof (check_empty_directory_downloads Semver.compare home posix_join
                release_130 asset_130 [] ["notes.txt"%string] initial
                eq_refl eq_refl) as H.
  exact (conj (proj1 H) (proj1 (proj2 H))).
Defined.

(** X8: release 1.3.0 with [mcu_v1.3.0.img.zip] on disk. *)
Lemma check_up_to_date_witness :
  log (exec (checkForNewImage Semver.compare home posix_join true
               (Some release_130) (Normal ["mcu_v1.3.0.img.zip"])) initial) =
  [SelectImageByPath "/home/user/Downloads/mcu_v1.3.0.img.zip"] /\
  downloading
    (ctrl (exec (checkForNewImage Semver.compare home posix_join true
                   (Some release_130) (Normal ["mcu_v1.3.0.img.zip"])) initial))
  = false.
Proof.
  exact (check_up_to_date Semver.compare home posix_join true release_130
           asset_130 [] ["mcu_v1.3.0.img.zip"%string] "mcu_v1.3.0.img.zip" []
           0%Z initial eq_refl eq_refl eq_refl (Z.le_refl 0)).
Defined.

(** X9: release 1.3.0 with [mcu_v1.2.0.img.zip] on disk. *)
Lemma check_newer_downloads_witness :
  log (exec (checkForNewImage Semver.compare home posix_join true
               (Some release_130) (Normal ["mcu_v1.2.0.img.zip"])) initial) =
  [SelectImageByPath "/home/user/Downloads/mcu_v1.2.0.img.zip";
   IpcSend "download-mcu" (JStr "https://example.org/mcu_v1.3.0.img.zip")] /\
  downloading
    (ctrl (exec (checkForNewImage Semver.compare home posix_join true
                   (Some release_130) (Normal ["mcu_v1.2.0.img.zip"])) initial))
  = true.
Proof.
  exact (check_newer_downloads Semver.compare home posix_join release_130
           asset_130 [] ["mcu_v1.2.0.img.zip"%string] "mcu_v1.2.0.img.zip" []
           1%Z initial eq_refl eq_refl eq_refl eq_refl eq_refl).
Defined.

(** X10: a release tagged [latest] with [mcu_v1.2.0.img.zip] on disk. *)
Lemma check_compare_throws_witness :
  log (exec (checkForNewImage Semver.compare home posix_join true
               (Some release_latest) (Normal ["mcu_v1.2.0.img.zip"])) initial) =
  [ConsoleError "Select image error"] /\
  currentVersion
    (ctrl (exec (checkForNewImage Semver.compare home posix_join true
                   (Some release_latest) (Normal ["mcu_v1.2.0.img.zip"])) initial))
  = JStr "v1.2.0" /\
  downloading
    (ctrl (exec (checkForNewImage Semver.compare home posix_join true
                   (Some release_latest) (Normal ["mcu_v1.2.0.img.zip"])) initial))
  = false.
Proof.
  exact (check_compare_throws Semver.compare home posix_join true release_latest
           asset_130 [] ["mcu_v1.2.0.img.zip"%string] "mcu_v1.2.0.img.zip" []
           "TypeError: Invalid Version" initial eq_refl eq_refl eq_refl eq_refl).
Defined.

(** X14, on [quiet_events]: the newest image is selected twice, the
    downloaded one once, and nothing is requested. *)
Lemma unprompted_run_never_downloads_witness :
  forallb unprompted quiet_events = true /\
  selected_paths (log (run Semver.compare home posix_join quiet_events initial)) =
  ["/home/user/Downloads/mcu_v1.2.0.img.zip";
   "/home/user/Downloads/mcu_v1.3.0.img.zip";
   "/home/user/Downloads/mcu_v1.3.0.img.zip"]%string /\
  downloading (ctrl (run Semver.compare home posix_join quiet_events initial))
  = false /\
  download_requests
    (log (run Semver.compare home posix_join quiet_events initial)) = [].
Proof.
  split; [reflexivity |]. split; [reflexivity |].
  exact (unprompted_run_never_downloads Semver.compare home posix_join
           quiet_events eq_refl).
Defined.

(** X17: release 1.3.0 seen by the check of [init]. *)
Lemma prompt_after_check_witness :
  downloadPrompt
    (ctrl (exec (checkForNewImage Semver.compare home posix_join false
                   (Some release_130) (Normal ["mcu_v1.2.0.img.zip"])) initial))
  = "Download 1.3.0"%string.
Proof.
  exact (prompt_after_check Semver.compare home posix_join release_130 asset_130
           [] "1.3.0" (Normal ["mcu_v1.2.0.img.zip"%string]) initial
           eq_refl eq_refl eq_refl).
Defined.

(** X18: the Windows image, confirmed away and then kept. *)
Lemma selectImage_outcome_witness :
  selection
    (exec (selectImage sample_isSupportedImage sample_looksLikeWindowsImage
             sample_invalidImage sample_windows_warning
             sample_partition_warning windows_image (Normal true))
       earlier_world) = selection earlier_world /\
  filter is_setImage
    (log (exec (selectImage sample_isSupportedImage sample_looksLikeWindowsImage
                  sample_invalidImage sample_windows_warning
                  sample_partition_warning windows_image (Normal false))
            earlier_world)) = [SetImage windows_image].
Proof.
  split.
  - exact (proj1 (selectImage_outcome sample_isSupportedImage
                    sample_looksLikeWindowsImage sample_invalidImage
                    sample_windows_warning sample_partition_warning
                    windows_image (Normal true) earlier_world
                    sample_windows_warning_nonempty
                    sample_partition_warning_nonempty)).
  - exact (proj2 (selectImage_outcome sample_isSupportedImage
                    sample_looksLikeWindowsImage sample_invalidImage
                    sample_windows_warning sample_partition_warning
                    windows_image (Normal false) earlier_world
                    sample_windows_warning_nonempty
                    sample_partition_warning_nonempty)).
Defined.

(** X19: an image that needs no confirmation, whatever the modal holds. *)
Lemma selectImage_accepted_witness :
  selection
    (exec (selectImage sample_isSupportedImage sample_looksLikeWindowsImage
             sample_invalidImage sample_windows_warning
             sample_partition_warning raspbian_image (Throw "closed"))
       initial) = Some raspbian_image /\
  log (exec (selectImage sample_isSupportedImage sample_looksLikeWindowsImage
               sample_invalidImage sample_windows_warning
               sample_partition_warning raspbian_image (Throw "closed"))
         initial) =
  [SetImage raspbian_image;
   LogEvent "Select image"
     (OfImage (mkImage "/home/user/raspbian.img" true (JBool true) (JBool false)))].
Proof.
  exact (selectImage_accepted sample_isSupportedImage
           sample_looksLikeWindowsImage sample_invalidImage
           sample_windows_warning sample_partition_warning
           raspbian_image (Throw "closed") initial eq_refl eq_refl eq_refl).
Defined.

(** X20: the Windows image, and a modal whose promise is rejected. *)
Lemma selectImage_modal_fails_witness :
  selection
    (exec (selectImage sample_isSupportedImage sample_looksLikeWindowsImage
             sample_invalidImage sample_windows_warning
             sample_partition_warning windows_image (Throw "closed"))
       earlier_world) = selection earlier_world /\
  exists warning text,
    log (exec (selectImage sample_isSupportedImage sample_looksLikeWindowsImage
                 sample_invalidImage sample_windows_warning
                 sample_partition_warning windows_image (Throw "closed"))
           earlier_world) =
    log earlier_world ++ [LogEvent warning (OfImage windows_image);
                          Display "Change" "Continue" text; Report "closed"].
Proof.
  exact (selectImage_modal_fails sample_isSupportedImage
           sample_looksLikeWindowsImage sample_invalidImage
           sample_windows_warning sample_partition_warning
           windows_image "closed" earlier_world
           sample_windows_warning_nonempty sample_partition_warning_nonempty
           eq_refl (or_introl eq_refl)).
Defined.

(** X21: the Windows image, with an empty text for the Windows warning. *)
Lemma selectImage_empty_warning_witness :
  selection
    (exec (selectImage sample_isSupportedImage sample_looksLikeWindowsImage
             sample_invalidImage "" sample_partition_warning
             windows_image (Normal true))
       earlier_world) = Some windows_image /\
  displayed
    (log (exec (selectImage sample_isSupportedImage sample_looksLikeWindowsImage
                  sample_invalidImage "" sample_partition_warning
                  windows_image (Normal true))
            earlier_world)) = [].
Proof.
  pose proof (selectImage_empty_warning sample_isSupportedImage
                sample_looksLikeWindowsImage sample_invalidImage
                "" sample_partition_warning
                windows_image (Normal true) earlier_world
                eq_refl eq_refl eq_refl) as H.
  exact (conj (proj1 H) (proj1 (proj2 H))).
Defined.

(** X23: the base name read after an image was committed, and after one was
    confirmed away. *)
Lemma getImageBasename_after_select_witness :
  getImageBasename posix_basename
    (exec (selectImage sample_isSupportedImage sample_looksLikeWindowsImage
             sample_invalidImage sample_windows_warning
             sample_partition_warning windows_image (Normal false))
       earlier_world) = "windows.iso"%string /\
  getImageBasename posix_basename
    (exec (selectImage sample_isSupportedImage sample_looksLikeWindowsImage
             sample_invalidImage sample_windows_warning
             sample_partition_warning windows_image (Normal true))
       earlier_world) = "raspbian.img"%string.
Proof.
  split.
  - exact (getImageBasename_after_select sample_isSupportedImage
             sample_looksLikeWindowsImage sample_invalidImage
             sample_windows_warning sample_partition_warning posix_basename
             windows_image (Normal false) earlier_world
             sample_windows_warning_nonempty
             sample_partition_warning_nonempty).
  - exact (getImageBasename_after_select sample_isSupportedImage
             sample_looksLikeWindowsImage sample_invalidImage
             sample_windows_warning sample_partition_warning posix_basename
             windows_image (Normal true) earlier_world
             sample_windows_warning_nonempty
             sample_partition_warning_nonempty).
Defined.

(** X25: a registry given in two orders. *)
Lemma extension_lists_order_independent_witness :
  mainSupportedExtensions ["zip"; "gz"; "img"] =
  mainSupportedExtensions ["gz"; "zip"; "img"] /\
  extraSupportedExtensions ["zip"; "gz"; "img"] =
  extraSupportedExtensions ["gz"; "zip"; "img"].
Proof.
  exact (extension_lists_order_independent ["zip"; "gz"; "img"]%string
           ["gz"; "zip"; "img"]%string (perm_swap _ _ _)).
Defined.

(** An opening that fails. *)
Example selectImageByPath_failure :
  selectImageByPath sample_isSupportedImage sample_looksLikeWindowsImage
    sample_invalidImage sample_windows_warning sample_partition_warning
    posix_basename sample_openImage
    "/home/user/Downloads/mcu_v1.3.0.img.zip" (Throw "Invalid archive")
    (Normal false) initial
  = (mkWorld (mkController false JNull JNull) None
       [ShowError "Error opening image"
          "Something went wrong while opening mcu_v1.3.0.img.zip: Invalid archive"],
     ["Invalid archive"%string]).
Proof. reflexivity. Qed.
